(** * VEX DEFENDER sound-effect pipeline (tools/convert_sfx.py)

    A shallow embedding of the sample-level stages of the WAV -> BRR
    conversion script: [read_wav_mono], [downsample], [trim_silence],
    [normalize], [align_brr], [write_wav], [convert_to_brr] and the batch
    loop [main].  Python integers are [Z], lists are [list Z], exceptions
    are an explicit [outcome], and Python floats are IEEE-754 binary64
    values held as exact integers in units of 2^-1074. *)

From Stdlib Require Import String ZArith List Lia Bool SpecFloat.
Import ListNotations.
Local Open Scope Z_scope.

(** ** Exceptions and outcomes *)

(** The exceptions the script can meet.  [WaveError] stands for whatever
    [wave.open] / [struct.unpack] raise on a container they reject, and
    [OSError] for what [subprocess.run] and [os.path.getsize] raise. *)
Inductive exn : Type :=
| ZeroDivisionError
| OverflowError
| IndexError
| ValueError
| StructError
| WaveError (msg : string)
| OSError (msg : string).

(** A Python computation either returns, raises, or (for the [while] loop of
    [downsample]) is still running when the fuel of the model is used up. *)
Inductive outcome (A : Type) : Type :=
| Done (a : A)
| Raised (e : exn)
| OutOfFuel.

Arguments Done {A} a.
Arguments Raised {A} e.
Arguments OutOfFuel {A}.

Definition bind {A B : Type} (c : outcome A) (k : A -> outcome B) : outcome B :=
  match c with
  | Done a => k a
  | Raised e => Raised e
  | OutOfFuel => OutOfFuel
  end.

Notation "x <- c ;; k" := (bind c (fun x => k))
  (at level 61, c at next level, right associativity).

(** [mapM f l]: a list comprehension whose body may raise. *)
Fixpoint mapM {A B : Type} (f : A -> outcome B) (l : list A) : outcome (list B) :=
  match l with
  | [] => Done []
  | x :: t => y <- f x ;; ys <- mapM f t ;; Done (y :: ys)
  end.

(** ** Python floats: IEEE-754 binary64, round to nearest, ties to even *)

Module Float64.

(** Every finite binary64 value is an integer multiple of 2^-1074 (the
    smallest subnormal), so a finite float is held as that integer.
    [one] is 1.0 and [top] is 2^1024, the first magnitude that no longer
    rounds to a finite value.  The sign of zero is not kept: the script
    only ever feeds floats to [+], [*] and [int()], which do not see it. *)
Definition one : Z := 2 ^ 1074.
Definition top : Z := 2 ^ 2098.

Inductive float : Type :=
| Finite (x : Z)
| Infinity (neg : bool)
| NaN.

(** Nearest integer to the rational [n / d] (0 <= n, 0 < d), ties to the
    even neighbour. *)
Definition round_half_even (n d : Z) : Z :=
  let q := n / d in
  let r := n mod d in
  if 2 * r <? d then q
  else if d <? 2 * r then q + 1
  else if Z.even q then q else q + 1.

(** Number of low bits that do not fit a 53-bit significand.  Below 2^53
    units (subnormals and the first normal binades) the spacing is one
    unit. *)
Definition drop (n d : Z) : Z := Z.max 0 (Z.log2 (n / d) - 52).

(** Rounding of a non-negative rational to the binary64 grid, exponent
    unbounded above. *)
Definition round_mag (n d : Z) : Z :=
  let k := drop n d in
  round_half_even n (d * 2 ^ k) * 2 ^ k.

Definition round_ne (n d : Z) : Z :=
  if n <? 0 then - round_mag (- n) d else round_mag n d.

(** Correctly rounded value of [n / d] units, with overflow to infinity. *)
Definition round64 (n d : Z) : float :=
  let r := round_ne n d in
  if Z.abs r <? top then Finite r else Infinity (r <? 0).

(** [float(s)] for a Python int: OverflowError when too large. *)
Definition of_int (s : Z) : outcome float :=
  match round64 (s * one) 1 with
  | Finite x => Done (Finite x)
  | _ => Raised OverflowError
  end.

(** [a / b] on Python ints (true division, correctly rounded). *)
Definition true_div (a b : Z) : outcome float :=
  if b =? 0 then Raised ZeroDivisionError
  else
    match (if b <? 0 then round64 (- a * one) (- b) else round64 (a * one) b) with
    | Finite x => Done (Finite x)
    | _ => Raised OverflowError
    end.

(** [x + y] on floats. *)
Definition add (x y : float) : float :=
  match x, y with
  | NaN, _ | _, NaN => NaN
  | Infinity a, Infinity b => if Bool.eqb a b then Infinity a else NaN
  | Infinity a, Finite _ => Infinity a
  | Finite _, Infinity b => Infinity b
  | Finite a, Finite b => round64 (a + b) 1
  end.

(** [x * y] on floats. *)
Definition mul (x y : float) : float :=
  match x, y with
  | NaN, _ | _, NaN => NaN
  | Infinity a, Infinity b => Infinity (xorb a b)
  | Infinity a, Finite y => if y =? 0 then NaN else Infinity (xorb a (y <? 0))
  | Finite x, Infinity b => if x =? 0 then NaN else Infinity (xorb (x <? 0) b)
  | Finite a, Finite b => round64 (a * b) one
  end.

(** [s * x] with [s] an int: the int is converted first. *)
Definition int_mul (s : Z) (x : float) : outcome float :=
  f <- of_int s ;; Done (mul f x).

(** [int(x)]: truncation toward zero. *)
Definition to_int (x : float) : outcome Z :=
  match x with
  | Finite x => Done (Z.quot x one)
  | Infinity _ => Raised OverflowError
  | NaN => Raised ValueError
  end.

(** The float nearest to the decimal literal [n / d] (d > 0). *)
Definition literal (n d : Z) : float := round64 (n * one) d.

(** A value of the binary64 grid (units): a significand below 2^53 times
    a power of two. *)
Definition representable (g : Z) : Prop :=
  exists m k, g = m * 2 ^ k /\ Z.abs m < 2 ^ 53 /\ 0 <= k.

(** Reading of a Stdlib [spec_float] in the same units, used to compare
    the operations above with the reference ones of [SpecFloat]. *)
Definition of_spec (f : spec_float) : float :=
  match f with
  | S754_zero _ => Finite 0
  | S754_infinity s => Infinity s
  | S754_nan => NaN
  | S754_finite s m e =>
      Finite ((if s then Z.neg m else Z.pos m) * 2 ^ (e + 1074))
  end.

Definition spec_of_int (s : Z) : spec_float := binary_normalize 53 1024 s 0 false.

End Float64.

(** ** Python list primitives *)

Definition len (xs : list Z) : Z := Z.of_nat (length xs).

(** [xs[i]]: negative indices count from the end, IndexError out of range. *)
Definition py_index (xs : list Z) (i : Z) : outcome Z :=
  let j := if i <? 0 then i + len xs else i in
  if (0 <=? j) && (j <? len xs) then
    match nth_error xs (Z.to_nat j) with
    | Some x => Done x
    | None => Raised IndexError
    end
  else Raised IndexError.

(** A slice bound [i] of a list of length [n], as Python clamps it. *)
Definition slice_bound (n i : Z) : Z :=
  if i <? 0 then Z.max 0 (i + n) else Z.min i n.

(** [xs[start:]] and [xs[:stop]]. *)
Definition slice_from (xs : list Z) (start : Z) : list Z :=
  skipn (Z.to_nat (slice_bound (len xs) start)) xs.

Definition slice_to (xs : list Z) (stop : Z) : list Z :=
  firstn (Z.to_nat (slice_bound (len xs) stop)) xs.

(** [range(n)] and [range(0, stop, step)]; a zero step raises ValueError. *)
Definition py_range (n : Z) : list Z := map Z.of_nat (seq 0 (Z.to_nat n)).

Definition py_range_step (stop step : Z) : outcome (list Z) :=
  if step =? 0 then Raised ValueError
  else
    let count :=
      if 0 <? step then (if 0 <? stop then (stop - 1) / step + 1 else 0)
      else (if stop <? 0 then (- stop - 1) / (- step) + 1 else 0) in
    Done (map (fun k => k * step) (py_range count)).

(** Signed 16-bit amplitudes. *)
Definition in16 (s : Z) : Prop := -32768 <= s <= 32767.
Definition in16b (s : Z) : bool := (-32768 <=? s) && (s <=? 32767).

(** ** Configuration *)

Definition TARGET_RATE : Z := 16000.
Definition SILENCE_THRESHOLD : Z := 800.

(** ** The pipeline stages *)

(** What [wave.open] and [struct.unpack] make of a source file: either they
    raise, or they deliver the channel count, the frame rate and the
    interleaved 16-bit samples ([nframes * nch] of them). *)
Inductive container : Type :=
| Rejected (msg : string)
| Pcm (nch rate : Z) (samples : list Z).

(** The inner loop of the downmix: [s = 0; for c in range(nch): s += samples[i + c]]. *)
Definition frame_sum (samples : list Z) (i nch : Z) : outcome Z :=
  fold_left (fun acc c => s <- acc ;; x <- py_index samples (i + c) ;; Done (s + x))
            (py_range nch) (Done 0).

(** [mono.append(s // nch)] for every frame start [i]. *)
Definition downmix (samples : list Z) (nch : Z) : outcome (list Z) :=
  starts <- py_range_step (len samples) nch ;;
  mapM (fun i => s <- frame_sum samples i nch ;; Done (s / nch)) starts.

Definition read_wav_mono (file : container) : outcome (list Z * Z) :=
  match file with
  | Rejected msg => Raised (WaveError msg)
  | Pcm nch rate samples =>
      mono <- downmix samples nch ;; Done (mono, rate)
  end.

(** The [while int(i) < len(samples)] loop; [fuel] bounds the iterations
    the model follows. *)
Fixpoint downsample_loop (fuel : nat) (samples : list Z)
         (ratio i : Float64.float) (out : list Z) : outcome (list Z) :=
  match fuel with
  | O => OutOfFuel
  | S fuel' =>
      idx <- Float64.to_int i ;;
      if idx <? len samples then
        x <- py_index samples idx ;;
        downsample_loop fuel' samples ratio (Float64.add i ratio) (out ++ [x])
      else Done out
  end.

Definition downsample (fuel : nat) (samples : list Z) (src_rate dst_rate : Z)
  : outcome (list Z) :=
  ratio <- Float64.true_div src_rate dst_rate ;;
  downsample_loop fuel samples ratio (Float64.Finite 0) [].

(** The scan of [trim_silence]: [start] keeps its initial value unless a
    sample louder than the threshold is met, and the loop stops there. *)
Fixpoint first_loud (samples : list Z) (threshold i start : Z) : Z :=
  match samples with
  | [] => start
  | s :: rest =>
      if threshold <? Z.abs s then i
      else first_loud rest threshold (i + 1) start
  end.

Definition trim_silence (samples : list Z) (threshold : Z) : list Z :=
  let start := first_loud samples threshold 0 0 in
  let start := Z.max 0 (start - 16) in
  slice_from samples start.

(** [max(abs(s) for s in samples) if samples else 1]. *)
Definition peak_of (samples : list Z) : Z :=
  match samples with
  | [] => 1
  | s :: rest => fold_left Z.max (map Z.abs rest) (Z.abs s)
  end.

Definition clamp16 (v : Z) : Z := Z.max (-32768) (Z.min 32767 v).

Definition normalize (samples : list Z) (target_peak : Z) : outcome (list Z) :=
  let peak := peak_of samples in
  if peak =? 0 then Done samples
  else
    scale <- Float64.true_div target_peak peak ;;
    mapM (fun s => p <- Float64.int_mul s scale ;;
                   v <- Float64.to_int p ;;
                   Done (clamp16 v)) samples.

Definition align_brr (samples : list Z) : list Z :=
  let remainder := len samples mod 16 in
  if negb (remainder =? 0) then samples ++ repeat 0 (Z.to_nat (16 - remainder))
  else samples.

(** The RIFF header that [writeframes] packs has unsigned 32-bit fields
    for the chunk size [36 + datalength] and for the byte rate
    [nchannels * framerate * sampwidth]; here one channel of two bytes. *)
Definition header_fits (nsamples rate : Z) : bool :=
  (36 + 2 * nsamples <? 2 ^ 32) && (2 * rate <? 2 ^ 32).

(** [setframerate] refuses a rate that is not positive, [struct.pack('<h...')]
    a sample outside the signed 16-bit range, and the header a size or a
    rate that does not fit its fields. *)
Definition write_wav (samples : list Z) (rate : Z) : outcome container :=
  if rate <=? 0 then Raised (WaveError "bad frame rate")
  else if negb (forallb in16b samples) then Raised StructError
  else if negb (header_fits (len samples) rate) then Raised StructError
  else Done (Pcm 1 rate samples).

(** ** The batch loop *)

(** What happens when the external encoder is run on a container: it
    exits with status 0 and leaves an output file of some size, it exits
    with another status, it cannot be started at all ([subprocess.run]
    raises), or it exits with status 0 without leaving an output file. *)
Inductive encoded : Type :=
| Brr (size : Z)
| EncoderError (stderr : string)
| CannotStart (msg : string)
| NoOutput.

(** The progress lines of [main] that matter for the control flow. *)
Inductive event : Type :=
| Converting (src_name out_name : string)
| SourceNotFound (src_name : string)
| SnesbrrFailed (stderr : string)
| BrrOutput (out_name : string) (size : Z)
| FailedToConvert (out_name : string).

Record entry : Type := mk_entry
  { src_name : string;
    out_name : string;
    max_dur : Float64.float }.

Record summary : Type := mk_summary
  { success : Z;
    total_brr_size : Z }.

Section Batch.

(** The source directory ([None]: the path does not exist), the external
    encoder, and the fuel granted to each resampling loop.  The output
    directory is taken to exist and to be writable: [os.makedirs] and
    opening the intermediate WAV for writing succeed. *)
Variable source : string -> option container.
Variable snesbrr : container -> encoded.
Variable fuel : nat.

(** [subprocess.run] raises when the encoder cannot be started; an exit
    status other than 0 prints the error line and gives [False]; status 0
    gives [True] whether or not an output file was left. *)
Definition convert_to_brr (wav : container) : list event * outcome bool :=
  match snesbrr wav with
  | Brr _ => ([], Done true)
  | EncoderError stderr => ([SnesbrrFailed stderr], Done false)
  | CannotStart msg => ([], Raised (OSError msg))
  | NoOutput => ([], Done true)
  end.

(** [os.path.getsize(brr_out)] after the encoder has run. *)
Definition getsize (wav : container) : outcome Z :=
  match snesbrr wav with
  | Brr size => Done size
  | _ => Raised (OSError "No such file or directory")
  end.

(** The sample-level part of one loop body, from the decoder to the
    intermediate WAV. *)
Definition convert_samples (file : container) (dur : Float64.float)
  : outcome container :=
  decoded <- read_wav_mono file ;;
  let '(mono, src_rate) := decoded in
  resampled <- downsample fuel mono src_rate TARGET_RATE ;;
  let trimmed := trim_silence resampled SILENCE_THRESHOLD in
  rate <- Float64.of_int TARGET_RATE ;;
  max_samples <- Float64.to_int (Float64.mul dur rate) ;;
  let truncated := slice_to trimmed max_samples in
  normalized <- normalize truncated 28000 ;;
  let aligned := align_brr normalized in
  write_wav aligned TARGET_RATE.

(** The [for] loop of [main]: the events printed so far, and either the
    counters at the end of the table or the exception that left the loop. *)
Fixpoint main_loop (table : list entry) (acc : summary)
  : list event * outcome summary :=
  match table with
  | [] => ([], Done acc)
  | e :: rest =>
      let start := Converting (src_name e) (out_name e) in
      match source (src_name e) with
      | None =>
          let '(evs, r) := main_loop rest acc in
          (start :: SourceNotFound (src_name e) :: evs, r)
      | Some file =>
          match convert_samples file (max_dur e) with
          | Done wav =>
              match convert_to_brr wav with
              | (evs0, Done true) =>
                  match getsize wav with
                  | Done size =>
                      let '(evs, r) :=
                        main_loop rest
                          (mk_summary (success acc + 1) (total_brr_size acc + size)) in
                      (start :: evs0 ++ BrrOutput (out_name e) size :: evs, r)
                  | Raised x => (start :: evs0, Raised x)
                  | OutOfFuel => (start :: evs0, OutOfFuel)
                  end
              | (evs0, Done false) =>
                  let '(evs, r) := main_loop rest acc in
                  (start :: evs0 ++ FailedToConvert (out_name e) :: evs, r)
              | (evs0, Raised x) => (start :: evs0, Raised x)
              | (evs0, OutOfFuel) => (start :: evs0, OutOfFuel)
              end
          | Raised x => ([start], Raised x)
          | OutOfFuel => ([start], OutOfFuel)
          end
      end
  end.

(** [main] up to its summary lines: the loop run from the zero counters,
    and the counters that the summary then prints. *)
Definition main (table : list entry) : list event * outcome summary :=
  main_loop table (mk_summary 0 0).

End Batch.

(** The mapping table of the script. *)
Definition MAPPINGS : list entry :=
  [ mk_entry "Zap.wav" "player_shoot" (Float64.literal 12 100);
    mk_entry "Zap02.wav" "enemy_shoot" (Float64.literal 12 100);
    mk_entry "explode.wav" "explosion" (Float64.literal 25 100);
    mk_entry "Hit01.wav" "hit" (Float64.literal 12 100);
    mk_entry "Bleep.wav" "menu_select" (Float64.literal 10 100);
    mk_entry "Bleep.wav" "menu_move" (Float64.literal 6 100);
    mk_entry "Bleep.wav" "dialog_blip" (Float64.literal 4 100);
    mk_entry "Test0001.wav" "level_up" (Float64.literal 40 100);
    mk_entry "ShipHit.wav" "heal" (Float64.literal 25 100) ]%string.

(** ** Vocabulary of the statements *)

(** A sample that the silence scan passes over. *)
Definition quiet (threshold s : Z) : Prop := Z.abs s <= threshold.

(** The channel amplitudes of one frame, added up in channel order. *)
Definition frame_total (frame : list Z) : Z := fold_left Z.add frame 0.

(** Largest absolute amplitude of a buffer (0 for the empty one). *)
Definition max_abs (samples : list Z) : Z :=
  fold_right (fun s m => Z.max (Z.abs s) m) 0 samples.

(** A two-entry batch whose first source is not a WAV file: the source
    directory, an encoder that packs 16 samples into 9 bytes, and the table. *)
Definition demo_source (name : string) : option container :=
  if String.eqb name "noise.txt" then Some (Rejected "file does not start with RIFF id")
  else if String.eqb name "beep.wav"
       then Some (Pcm 2 32000 [1000; 1000; -2000; -2000; 5; 6; 7; 8])
       else None.

Definition demo_encoder (wav : container) : encoded :=
  match wav with
  | Pcm _ _ samples => Brr (len samples / 16 * 9)
  | Rejected _ => EncoderError "not a wave file"
  end.

Definition demo_table : list entry :=
  [ mk_entry "noise.txt" "noise" (Float64.literal 12 100);
    mk_entry "beep.wav" "beep" (Float64.literal 12 100) ]%string.

(** ** The intermediate WAV at the level of bytes *)

(** [struct.pack('<h', s)]: two's complement, low byte first; [None] is
    struct.error for a sample outside the signed 16-bit range. *)
Definition pack_h1 (s : Z) : option (list Z) :=
  if in16b s then Some [(s mod 65536) mod 256; (s mod 65536) / 256] else None.

(** [struct.pack('<' + 'h' * len(samples), *samples)]. *)
Fixpoint pack_h (samples : list Z) : option (list Z) :=
  match samples with
  | [] => Some []
  | s :: rest =>
      match pack_h1 s, pack_h rest with
      | Some b, Some raw => Some (b ++ raw)
      | _, _ => None
      end
  end.

Definition unpack_h1 (lo hi : Z) : Z :=
  let u := lo + 256 * hi in
  if u <? 32768 then u else u - 65536.

Fixpoint unpack_pairs (raw : list Z) : option (list Z) :=
  match raw with
  | [] => Some []
  | lo :: hi :: rest =>
      match unpack_pairs rest with
      | Some samples => Some (unpack_h1 lo hi :: samples)
      | None => None
      end
  | [_] => None
  end.

(** [struct.unpack('<' + 'h' * count, raw)]: struct.error unless the buffer
    holds exactly [2 * count] bytes. *)
Definition unpack_h (count : Z) (raw : list Z) : option (list Z) :=
  if len raw =? 2 * count then unpack_pairs raw else None.

(** A WAV file as the [wave] module sees it: the fields of the format
    chunk and the bytes of the data chunk. *)
Record wav_file : Type := mk_wav
  { nchannels : Z;
    sampwidth : Z;
    framerate : Z;
    data : list Z }.

(** [w.getnframes()] and [w.readframes(n)]. *)
Definition getnframes (w : wav_file) : Z :=
  len (data w) / (nchannels w * sampwidth w).

Definition readframes (w : wav_file) (n : Z) : list Z :=
  firstn (Z.to_nat (n * (nchannels w * sampwidth w))) (data w).

(** The first lines of [read_wav_mono], up to [struct.unpack]: the
    container that the rest of the function works on. *)
Definition open_wav (w : wav_file) : container :=
  if (nchannels w <? 1) || (sampwidth w <? 1) then Rejected "bad format chunk"
  else
    let nframes := getnframes w in
    match unpack_h (nframes * nchannels w) (readframes w nframes) with
    | Some samples => Pcm (nchannels w) (framerate w) samples
    | None => Rejected "unpack requires a buffer of another size"
    end.

(** [write_wav] down to the bytes: [setframerate] refuses a rate that is
    not positive, [struct.pack] a sample that does not fit, and
    [writeframes] a header whose 32-bit fields overflow. *)
Definition write_wav_file (samples : list Z) (rate : Z) : outcome wav_file :=
  if rate <=? 0 then Raised (WaveError "bad frame rate")
  else
    match pack_h samples with
    | Some raw =>
        if header_fits (len samples) rate then Done (mk_wav 1 2 rate raw)
        else Raised StructError
    | None => Raised StructError
    end.

Definition is_byte (b : Z) : Prop := 0 <= b <= 255.

(** ** More vocabulary *)

(** [subseq xs ys]: [xs] is [ys] with some elements left out. *)
Inductive subseq : list Z -> list Z -> Prop :=
| subseq_nil : subseq [] []
| subseq_skip x xs ys : subseq xs ys -> subseq xs (x :: ys)
| subseq_keep x xs ys : subseq xs ys -> subseq (x :: xs) (x :: ys).

(** Every [k]-th sample, starting with the first. *)
Definition decimate (samples : list Z) (k : Z) : list Z :=
  map (fun j => nth (Z.to_nat (j * k)) samples 0)
      (py_range ((len samples + k - 1) / k)).

(** The sizes reported by the [BRR output] lines, and the number of
    entries that were started. *)
Fixpoint brr_sizes (evs : list event) : list Z :=
  match evs with
  | [] => []
  | BrrOutput _ size :: rest => size :: brr_sizes rest
  | _ :: rest => brr_sizes rest
  end.

Fixpoint started (evs : list event) : Z :=
  match evs with
  | [] => 0
  | Converting _ _ :: rest => 1 + started rest
  | _ :: rest => started rest
  end.

Definition total (sizes : list Z) : Z := fold_right Z.add 0 sizes.

(** ** tools/convert_sprite.py: the palette and the pixel indices *)

Module Sprite.

(** [xs[start:stop]]. *)
Definition py_slice (xs : list Z) (start stop : Z) : list Z :=
  let a := slice_bound (len xs) start in
  let b := slice_bound (len xs) stop in
  firstn (Z.to_nat (b - a)) (skipn (Z.to_nat a) xs).

(** [[val < 128 for val in alpha_data]]. *)
Definition transparent_mask (alpha_data : list Z) : list bool :=
  map (fun val => val <? 128) alpha_data.

(** The palette: black for index 0, then three entries of the quantizer's
    palette per colour, then zeros up to 768 entries (the [while] loop
    appends one zero at a time until the length is 768). *)
Definition new_palette (quant_palette : list Z) (max_colors : Z) : list Z :=
  let extended :=
    fold_left (fun pal i => pal ++ py_slice quant_palette (i * 3) (i * 3 + 3))
              (py_range max_colors) [0; 0; 0] in
  extended ++ repeat 0 (Z.to_nat (768 - len extended)).

(** The pixel loop: index 0 where the mask is set, else the quantizer's
    index plus one. *)
Definition out_data (mask : list bool) (quant_data : list Z) : outcome (list Z) :=
  mapM (fun i =>
          match nth_error mask (Z.to_nat i) with
          | Some true => Done 0
          | Some false => q <- py_index quant_data i ;; Done (q + 1)
          | None => Raised IndexError
          end)
       (py_range (len quant_data)).

(** [sys.exit(code)], or the outcome of the code that runs. *)
Inductive exit_or (A : Type) : Type :=
| Exit (code : Z)
| Run (r : outcome A).

Arguments Exit {A} code.
Arguments Run {A} r.

(** [convert_sprite] from the data the imaging library delivers for the
    resized image (its alpha channel, the quantizer's indices and palette)
    to the palette and the pixels of the image that is saved. *)
Definition convert_sprite (alpha_data quant_data quant_palette : list Z)
           (max_colors : Z) : exit_or (list Z * list Z) :=
  if (max_colors <? 1) || (15 <? max_colors) then Exit 1
  else
    Run (let palette := new_palette quant_palette max_colors in
         pixels <- out_data (transparent_mask alpha_data) quant_data ;;
         Done (palette, pixels)).

End Sprite.

(** ** tools/batch_convert.py: the loop over the manifest *)

Module BatchConvert.

(** How a run of the driver can end early. *)
Inductive halt : Type :=
| KeyError (key : string)
| SystemExit (code : Z)
| ConverterError (msg : string).

Inductive run (A : Type) : Type :=
| Ret (a : A)
| Halt (h : halt).

Arguments Ret {A} a.
Arguments Halt {A} h.

Definition then_ {A B : Type} (c : run A) (k : A -> run B) : run B :=
  match c with
  | Ret a => k a
  | Halt h => Halt h
  end.

(** One entry of the manifest; a key that the JSON object lacks is [None]. *)
Record asset : Type := mk_asset
  { a_id : option string;
    a_phase : option Z;
    a_source : option string;
    a_output : option string;
    a_type : option string;
    a_size : option Z;
    a_width : option Z;
    a_height : option Z;
    a_colors : option Z }.

(** [asset[k]] and [asset.get(k, default)]. *)
Definition item {A : Type} (k : string) (v : option A) : run A :=
  match v with
  | Some a => Ret a
  | None => Halt (KeyError k)
  end.

Definition get {A : Type} (v : option A) (default : A) : A :=
  match v with
  | Some a => a
  | None => default
  end.

Section Driver.

(** The file system, [os.path.join], and the imaging part of the two
    converters ([None]: the image was saved, [Some msg]: it raised). *)
Variable isfile : string -> bool.
Variable join : string -> string -> string.
Variable render_sprite : string -> string -> Z -> Z -> option string.
Variable render_background : string -> string -> Z -> Z -> Z -> option string.

Definition convert_sprite (input output : string) (size max_colors : Z) : run unit :=
  if (max_colors <? 1) || (15 <? max_colors) then Halt (SystemExit 1)
  else
    match render_sprite input output size max_colors with
    | None => Ret tt
    | Some msg => Halt (ConverterError msg)
    end.

Definition convert_background (input output : string) (width height max_colors : Z)
  : run unit :=
  if (max_colors <? 1) || (16 <? max_colors) then Halt (SystemExit 1)
  else
    match render_background input output width height max_colors with
    | None => Ret tt
    | Some msg => Halt (ConverterError msg)
    end.

(** [phase_filter is not None and asset.get("phase", 999) != phase_filter]. *)
Definition filtered_out (phase_filter : option Z) (a : asset) : bool :=
  match phase_filter with
  | Some p => negb (get (a_phase a) 999 =? p)
  | None => false
  end.

(** The body of the inner loop, on the counters [(converted, skipped)]. *)
Definition process_asset (phase_filter : option Z) (source_root output_root : string)
           (a : asset) (counters : Z * Z) : run (Z * Z) :=
  let '(converted, skipped) := counters in
  if filtered_out phase_filter a then Ret (converted, skipped + 1)
  else
    then_ (item "source" (a_source a)) (fun src =>
    let source_path := join source_root src in
    then_ (item "output" (a_output a)) (fun out =>
    let output_path := join output_root out in
    if negb (isfile source_path) then Ret (converted, skipped + 1)
    else
      then_ (item "type" (a_type a)) (fun ty =>
      if String.eqb ty "sprite" then
        then_ (item "size" (a_size a)) (fun size =>
        then_ (convert_sprite source_path output_path size (get (a_colors a) 15))
              (fun _ => Ret (converted + 1, skipped)))
      else if String.eqb ty "background" then
        then_ (item "width" (a_width a)) (fun width =>
        then_ (item "height" (a_height a)) (fun height =>
        then_ (convert_background source_path output_path width height
                                  (get (a_colors a) 16))
              (fun _ => Ret (converted + 1, skipped))))
      else
        then_ (item "id" (a_id a)) (fun _ => Ret (converted, skipped + 1))))).

Fixpoint process_list (phase_filter : option Z) (source_root output_root : string)
         (assets : list asset) (counters : Z * Z) : run (Z * Z) :=
  match assets with
  | [] => Ret counters
  | a :: rest =>
      then_ (process_asset phase_filter source_root output_root a counters)
            (process_list phase_filter source_root output_root rest)
  end.

(** [process_assets]: the categories of the manifest in their order, the
    assets of each category in theirs. *)
Definition process_assets (source_root output_root : string)
           (categories : list (string * list asset)) (phase_filter : option Z)
  : run (Z * Z) :=
  process_list phase_filter source_root output_root
               (concat (map snd categories)) (0, 0).

End Driver.

(** The assets that [--phase p] lets through, category by category, and a
    result with [k] more skipped assets. *)
Definition in_phase (p : Z) (a : asset) : bool := get (a_phase a) 999 =? p.

Definition only_phase (p : Z) (categories : list (string * list asset))
  : list (string * list asset) :=
  map (fun cat => (fst cat, filter (in_phase p) (snd cat))) categories.

Definition count (categories : list (string * list asset)) : Z :=
  Z.of_nat (length (concat (map snd categories))).

Definition add_skipped (k : Z) (r : run (Z * Z)) : run (Z * Z) :=
  match r with
  | Ret (converted, skipped) => Ret (converted, skipped + k)
  | Halt h => Halt h
  end.

(** A small manifest: a sprite of phase 3, an asset of an unknown type,
    and a background without phase. *)
Definition demo_manifest : list (string * list asset) :=
  [ ("sprites"%string,
     [ mk_asset (Some "ship") (Some 3) (Some "ship.png") (Some "ship.png")
                (Some "sprite") (Some 32) None None None;
       mk_asset (Some "font") (Some 3) (Some "font.png") (Some "font.png")
                (Some "tileset") None None None None ]);
    ("backgrounds"%string,
     [ mk_asset (Some "space") None (Some "space.png") (Some "space.png")
                (Some "background") None (Some 256) (Some 256) (Some 16) ]) ]%string.

End BatchConvert.

(** ** The binary64 grid brackets every rounded value *)

Module Float64Facts.
Import Float64.

Lemma rhe_lower n d : 0 < d -> n / d <= round_half_even n d.
Proof.
  intros Hd. unfold round_half_even.
  destruct (2 * (n mod d) <? d); [lia|].
  destruct (d <? 2 * (n mod d)); [lia|].
  destruct (Z.even (n / d)); lia.
Qed.

Lemma rhe_upper n d M : 0 < d -> n <= M * d -> round_half_even n d <= M.
Proof.
  intros Hd Hn. unfold round_half_even.
  pose proof (Z.div_mod n d ltac:(lia)) as E.
  pose proof (Z.mod_pos_bound n d Hd) as B.
  assert (Hq : n / d <= M) by (apply Z.div_le_upper_bound; lia).
  assert (Hq1 : 0 < n mod d -> n / d + 1 <= M) by (intros; nia).
  destruct (Z.ltb_spec (2 * (n mod d)) d); [lia|].
  destruct (Z.ltb_spec d (2 * (n mod d))); [apply Hq1; lia|].
  destruct (Z.even (n / d)); [lia | apply Hq1; lia].
Qed.

Lemma rhe_nonneg n d : 0 < d -> 0 <= n -> 0 <= round_half_even n d.
Proof.
  intros Hd Hn. pose proof (rhe_lower n d Hd).
  pose proof (Z.div_pos n d Hn Hd). lia.
Qed.

Lemma drop_nonneg n d : 0 <= drop n d.
Proof. unfold drop. lia. Qed.

(** When bits are dropped, the integer part has at least 53 + k bits. *)
Lemma drop_pos_large n d :
  0 < drop n d -> 2 ^ (52 + drop n d) <= n / d.
Proof.
  unfold drop. intros H.
  assert (L : 52 < Z.log2 (n / d)) by lia.
  assert (P : 0 < n / d).
  { destruct (Z.le_gt_cases (n / d) 0) as [Hle|]; [|assumption].
    rewrite (Z.log2_nonpos _ Hle) in L. lia. }
  replace (52 + Z.max 0 (Z.log2 (n / d) - 52)) with (Z.log2 (n / d)) by lia.
  apply Z.log2_spec. assumption.
Qed.

Lemma round_mag_nonneg n d : 0 < d -> 0 <= n -> 0 <= round_mag n d.
Proof.
  intros Hd Hn. unfold round_mag.
  pose proof (drop_nonneg n d).
  assert (0 < 2 ^ drop n d) by (apply Z.pow_pos_nonneg; lia).
  apply Z.mul_nonneg_nonneg; [apply rhe_nonneg; nia | lia].
Qed.

(** A positive grid value that is not a multiple of 2^k (k > 0) lies
    below 2^(52+k). *)
Lemma representable_small m j k :
  Z.abs m < 2 ^ 53 -> 0 <= j < k -> m * 2 ^ j < 2 ^ (52 + k).
Proof.
  intros Hm Hj.
  assert (P : 0 < 2 ^ j) by (apply Z.pow_pos_nonneg; lia).
  replace (52 + k) with (53 + j + (k - 1 - j)) by lia.
  rewrite (Z.pow_add_r 2 (53 + j)), (Z.pow_add_r 2 53 j) by lia.
  assert (Q : 1 <= 2 ^ (k - 1 - j)) by (apply (Z.pow_le_mono_r 2 0); lia).
  assert (m * 2 ^ j < 2 ^ 53 * 2 ^ j) by (apply Z.mul_lt_mono_pos_r; lia).
  nia.
Qed.

Lemma round_mag_lower n d g :
  0 < d -> 0 <= n -> representable g -> g * d <= n -> g <= round_mag n d.
Proof.
  intros Hd Hn (m & j & -> & Hm & Hj) Hle.
  pose proof (round_mag_nonneg n d Hd Hn) as NN.
  unfold round_mag in *. set (k := drop n d) in *.
  assert (Hk : 0 <= k) by apply drop_nonneg.
  assert (P : 0 < 2 ^ k) by (apply Z.pow_pos_nonneg; lia).
  assert (Hf : m * 2 ^ j <= n / d) by (apply Z.div_le_lower_bound; lia).
  pose proof (rhe_lower n (d * 2 ^ k) ltac:(nia)) as L.
  rewrite <- Z.div_div in L by lia.
  assert (T : m * 2 ^ j <= n / d / 2 ^ k * 2 ^ k); [|nia].
  destruct (Z.le_gt_cases k j) as [Hkj|Hkj].
  - assert (E : 2 ^ j = 2 ^ (j - k) * 2 ^ k)
      by (rewrite <- Z.pow_add_r by lia; f_equal; lia).
    rewrite E in *. rewrite Z.mul_assoc in *.
    apply Z.mul_le_mono_nonneg_r; [lia|].
    apply Z.div_le_lower_bound; lia.
  - pose proof (representable_small m j k Hm ltac:(lia)) as S.
    pose proof (drop_pos_large n d ltac:(fold k; lia)) as B. fold k in B.
    rewrite Z.pow_add_r in B by lia.
    assert (2 ^ 52 <= n / d / 2 ^ k) by (apply Z.div_le_lower_bound; lia).
    rewrite Z.pow_add_r in S by lia. nia.
Qed.

Lemma round_mag_upper n d g :
  0 < d -> 0 <= n -> representable g -> n <= g * d -> round_mag n d <= g.
Proof.
  intros Hd Hn (m & j & -> & Hm & Hj) Hle.
  unfold round_mag. set (k := drop n d).
  assert (Hk : 0 <= k) by apply drop_nonneg.
  assert (P : 0 < 2 ^ k) by (apply Z.pow_pos_nonneg; lia).
  destruct (Z.le_gt_cases k j) as [Hkj|Hkj].
  - assert (E : 2 ^ j = 2 ^ (j - k) * 2 ^ k)
      by (rewrite <- Z.pow_add_r by lia; f_equal; lia).
    rewrite E in *. rewrite Z.mul_assoc in *.
    apply Z.mul_le_mono_nonneg_r; [lia|].
    apply rhe_upper; nia.
  - exfalso.
    pose proof (representable_small m j k Hm ltac:(lia)) as S.
    pose proof (drop_pos_large n d ltac:(fold k; lia)) as B. fold k in B.
    assert (n / d <= m * 2 ^ j) by (apply Z.div_le_upper_bound; lia).
    lia.
Qed.

Lemma representable_opp g : representable g -> representable (- g).
Proof.
  intros (m & k & -> & Hm & Hk). exists (- m), k.
  split; [ring | split; [rewrite Z.abs_opp; exact Hm | exact Hk]].
Qed.

Lemma representable_0 : representable 0.
Proof. exists 0, 0. split; [reflexivity | split; [reflexivity | lia]]. Qed.

Lemma round_ne_lower n d g :
  0 < d -> representable g -> g * d <= n -> g <= round_ne n d.
Proof.
  intros Hd Hg Hle. unfold round_ne.
  destruct (Z.ltb_spec n 0).
  - assert (round_mag (- n) d <= - g); [|lia].
    apply round_mag_upper; [lia | lia | apply representable_opp; exact Hg | lia].
  - apply round_mag_lower; assumption.
Qed.

Lemma round_ne_upper n d g :
  0 < d -> representable g -> n <= g * d -> round_ne n d <= g.
Proof.
  intros Hd Hg Hle. unfold round_ne.
  destruct (Z.ltb_spec n 0).
  - assert (- g <= round_mag (- n) d); [|lia].
    apply round_mag_lower; [lia | lia | apply representable_opp; exact Hg | lia].
  - apply round_mag_upper; assumption.
Qed.

(** Grid values are fixed points of the rounding. *)
Lemma round_ne_exact g d :
  0 < d -> representable g -> round_ne (g * d) d = g.
Proof.
  intros Hd Hg. apply Z.le_antisymm.
  - apply round_ne_upper; [assumption | assumption | lia].
  - apply round_ne_lower; [assumption | assumption | lia].
Qed.

Lemma round_mag_0 d : 0 < d -> round_mag 0 d = 0.
Proof.
  intros Hd. apply Z.le_antisymm.
  - apply round_mag_upper; [lia | lia | apply representable_0 | lia].
  - apply round_mag_nonneg; lia.
Qed.

Lemma round_ne_opp n d : 0 < d -> round_ne (- n) d = - round_ne n d.
Proof.
  intros Hd. unfold round_ne.
  destruct (Z.ltb_spec n 0), (Z.ltb_spec (- n) 0); try lia.
  - rewrite Z.opp_involutive. reflexivity.
  - replace n with 0 by lia. cbn [Z.opp]. rewrite round_mag_0 by lia. reflexivity.
Qed.

End Float64Facts.

(** ** Lists, slices and lengths *)

Lemma len_nonneg xs : 0 <= len xs.
Proof. unfold len. lia. Qed.

Lemma len_app xs ys : len (xs ++ ys) = len xs + len ys.
Proof. unfold len. rewrite length_app. lia. Qed.

Lemma len_cons x xs : len (x :: xs) = 1 + len xs.
Proof. unfold len. cbn [length]. lia. Qed.

Lemma len_repeat (x : Z) n : len (repeat x n) = Z.of_nat n.
Proof. unfold len. rewrite repeat_length. reflexivity. Qed.

Lemma slice_from_inside xs start :
  0 <= start <= len xs -> slice_from xs start = skipn (Z.to_nat start) xs.
Proof.
  intros H. unfold slice_from, slice_bound.
  destruct (Z.ltb_spec start 0); [lia|].
  rewrite Z.min_l by lia. reflexivity.
Qed.

Lemma py_index_app_mid pre x post :
  py_index (pre ++ x :: post) (len pre) = Done x.
Proof.
  unfold py_index. pose proof (len_nonneg pre). pose proof (len_nonneg post).
  destruct (Z.ltb_spec (len pre) 0); [lia|].
  rewrite len_app, len_cons.
  destruct (Z.leb_spec 0 (len pre)); [|lia].
  destruct (Z.ltb_spec (len pre) (len pre + (1 + len post))); [|lia].
  cbn [andb]. unfold len. rewrite Nat2Z.id.
  rewrite nth_error_app2 by lia. rewrite Nat.sub_diag. reflexivity.
Qed.

(** ** trim_silence *)

Lemma first_loud_quiet samples threshold i start :
  Forall (quiet threshold) samples ->
  first_loud samples threshold i start = start.
Proof.
  intros H. revert i. induction H as [|s rest Hs _ IH]; intros i; cbn [first_loud].
  - reflexivity.
  - unfold quiet in Hs. destruct (Z.ltb_spec threshold (Z.abs s)); [lia|]. apply IH.
Qed.

Lemma first_loud_found pre s post threshold i start :
  Forall (quiet threshold) pre -> threshold < Z.abs s ->
  first_loud (pre ++ s :: post) threshold i start = i + len pre.
Proof.
  intros H Hs. revert i. induction H as [|q rest Hq _ IH]; intros i; cbn [first_loud app].
  - destruct (Z.ltb_spec threshold (Z.abs s)); [|lia]. unfold len. cbn. lia.
  - unfold quiet in Hq. destruct (Z.ltb_spec threshold (Z.abs q)); [lia|].
    rewrite IH, len_cons. lia.
Qed.

(** C4: when no sample is louder than the threshold, trim_silence hands the
    buffer back as it is: same samples, same length, and in particular a
    non-empty buffer is not trimmed to an empty one. *)
Theorem C4_trim_silence_quiet_passthrough (samples : list Z) (threshold : Z) :
  Forall (quiet threshold) samples ->
  trim_silence samples threshold = samples
  /\ len (trim_silence samples threshold) = len samples
  /\ (samples <> [] -> trim_silence samples threshold <> []).
Proof.
  intros H.
  assert (E : trim_silence samples threshold = samples).
  { unfold trim_silence. rewrite first_loud_quiet by assumption.
    rewrite slice_from_inside by (pose proof (len_nonneg samples); lia).
    reflexivity. }
  rewrite E. auto.
Qed.

Lemma C4_trim_silence_quiet_passthrough_witness :
  trim_silence [0; 300; -800; 12] 800 = [0; 300; -800; 12]
  /\ len (trim_silence [0; 300; -800; 12] 800) = len [0; 300; -800; 12]
  /\ ([0; 300; -800; 12] <> [] -> trim_silence [0; 300; -800; 12] 800 <> []).
Proof.
  apply (C4_trim_silence_quiet_passthrough [0; 300; -800; 12] 800).
  repeat constructor; unfold quiet; simpl; lia.
Defined.

(** C6: when some sample is louder than the threshold and the first such
    sample sits at index k, trim_silence returns the samples from index
    max(0, k - 16) to the end; with 100 zeros in front of a sample of
    amplitude threshold + 1 the output starts at index 84. *)
Theorem C6_trim_silence_keeps_lead_in
        (pre post : list Z) (s threshold : Z) :
  Forall (quiet threshold) pre ->
  threshold < Z.abs s ->
  trim_silence (pre ++ s :: post) threshold
  = skipn (Z.to_nat (Z.max 0 (len pre - 16))) (pre ++ s :: post)
  /\ (pre = repeat 0 100 ->
      trim_silence (pre ++ s :: post) threshold
      = skipn 84 (repeat 0 100 ++ s :: post)).
Proof.
  intros Hpre Hs.
  assert (E : trim_silence (pre ++ s :: post) threshold
              = skipn (Z.to_nat (Z.max 0 (len pre - 16))) (pre ++ s :: post)).
  { unfold trim_silence. rewrite first_loud_found by assumption.
    apply slice_from_inside. rewrite len_app, len_cons.
    pose proof (len_nonneg pre). pose proof (len_nonneg post). lia. }
  split; [exact E|].
  intros ->. rewrite E, len_repeat. reflexivity.
Qed.

Lemma C6_trim_silence_keeps_lead_in_witness :
  trim_silence (repeat 0 100 ++ 801 :: [7; -9]) 800
  = skipn (Z.to_nat (Z.max 0 (len (repeat 0 100) - 16))) (repeat 0 100 ++ 801 :: [7; -9])
  /\ (repeat 0 100 = repeat 0 100 ->
      trim_silence (repeat 0 100 ++ 801 :: [7; -9]) 800
      = skipn 84 (repeat 0 100 ++ 801 :: [7; -9])).
Proof.
  apply (C6_trim_silence_keeps_lead_in (repeat 0 100) [7; -9] 801 800).
  - apply Forall_forall. intros x Hx. apply repeat_spec in Hx. subst x.
    unfold quiet. simpl. lia.
  - simpl. lia.
Defined.

(** ** align_brr *)

(** C7: the output of align_brr has a length divisible by 16, is fewer than
    16 samples longer than the input, is the input followed by zero-valued
    samples only, and an input whose length is already a multiple of 16
    (the empty buffer included) comes back unchanged. *)
Theorem C7_align_brr_pads_to_block (samples : list Z) :
  len (align_brr samples) mod 16 = 0
  /\ 0 <= len (align_brr samples) - len samples < 16
  /\ (exists n, align_brr samples = samples ++ repeat 0 n)
  /\ (len samples mod 16 = 0 -> align_brr samples = samples)
  /\ align_brr [] = [].
Proof.
  unfold align_brr.
  pose proof (Z.mod_pos_bound (len samples) 16 ltac:(lia)) as B.
  pose proof (Z.div_mod (len samples) 16 ltac:(lia)) as D.
  destruct (Z.eqb_spec (len samples mod 16) 0) as [E|E]; cbn [negb].
  - repeat split; try lia; try reflexivity.
    exists 0%nat. cbn [repeat]. rewrite app_nil_r. reflexivity.
  - repeat split; try reflexivity; try (intros; lia).
    + rewrite len_app, len_repeat, Z2Nat.id by lia.
      replace (len samples + (16 - len samples mod 16))
        with ((len samples / 16 + 1) * 16) by lia.
      apply Z.mod_mul. lia.
    + rewrite len_app, len_repeat, Z2Nat.id by lia. lia.
    + rewrite len_app, len_repeat, Z2Nat.id by lia. lia.
    + eexists. reflexivity.
Qed.

Lemma C7_align_brr_pads_to_block_witness :
  len (align_brr (repeat 5 16)) mod 16 = 0
  /\ align_brr (repeat 5 16) = repeat 5 16.
Proof.
  pose proof (C7_align_brr_pads_to_block (repeat 5 16)) as (H1 & _ & _ & H4 & _).
  split; [exact H1 | apply H4; reflexivity].
Defined.

(** ** read_wav_mono: the downmix *)

Lemma py_range_seq n : py_range (Z.of_nat n) = map Z.of_nat (seq 0 n).
Proof. unfold py_range. rewrite Nat2Z.id. reflexivity. Qed.

Lemma len_concat_uniform (frames : list (list Z)) nch :
  Forall (fun fr => len fr = nch) frames ->
  len (concat frames) = Z.of_nat (length frames) * nch.
Proof.
  induction 1 as [|fr rest Hfr _ IH]; cbn [concat length].
  - reflexivity.
  - rewrite len_app, IH, Hfr. lia.
Qed.

(** The inner loop, started anywhere inside a frame. *)
Lemma frame_sum_from pre seen todo post acc :
  fold_left (fun a c => s <- a ;; x <- py_index (pre ++ (seen ++ todo) ++ post)
                                              (len pre + c) ;; Done (s + x))
            (map Z.of_nat (seq (length seen) (length todo))) (Done acc)
  = Done (fold_left Z.add todo acc).
Proof.
  revert seen acc. induction todo as [|x todo IH]; intros seen acc.
  - reflexivity.
  - cbn [length seq map fold_left bind].
    replace (pre ++ (seen ++ x :: todo) ++ post)
      with ((pre ++ seen) ++ x :: (todo ++ post))
      by (rewrite <- !app_assoc; reflexivity).
    replace (len pre + Z.of_nat (length seen)) with (len (pre ++ seen))
      by (rewrite len_app; reflexivity).
    rewrite py_index_app_mid. cbn [bind].
    specialize (IH (seen ++ [x]) (acc + x)).
    rewrite length_app in IH. cbn [length] in IH.
    rewrite Nat.add_1_r in IH.
    replace ((pre ++ seen) ++ x :: todo ++ post)
      with (pre ++ ((seen ++ [x]) ++ todo) ++ post)
      by (rewrite <- !app_assoc; reflexivity).
    exact IH.
Qed.

Lemma frame_sum_at pre frame post :
  frame_sum (pre ++ frame ++ post) (len pre) (len frame) = Done (frame_total frame).
Proof.
  unfold frame_sum, frame_total.
  change (len frame) with (Z.of_nat (length frame)). rewrite py_range_seq.
  exact (frame_sum_from pre [] frame post 0).
Qed.

Lemma downmix_frames_from (seen todo : list (list Z)) nch :
  Forall (fun fr => len fr = nch) (seen ++ todo) ->
  mapM (fun i => s <- frame_sum (concat (seen ++ todo)) i nch ;; Done (s / nch))
       (map (fun k => k * nch)
            (map Z.of_nat (seq (length seen) (length todo))))
  = Done (map (fun fr => frame_total fr / nch) todo).
Proof.
  revert seen. induction todo as [|fr todo IH]; intros seen H.
  - reflexivity.
  - cbn [length seq map mapM].
    assert (Hs : Forall (fun fr => len fr = nch) seen)
      by (apply Forall_app in H; tauto).
    assert (Hfr : len fr = nch).
    { apply Forall_app in H. destruct H as [_ H]. inversion H; assumption. }
    rewrite <- (len_concat_uniform seen nch Hs).
    rewrite concat_app. cbn [concat].
    rewrite <- Hfr at 1. rewrite frame_sum_at. cbn [bind].
    specialize (IH (seen ++ [fr])).
    rewrite <- app_assoc in IH. cbn [app] in IH.
    rewrite length_app in IH. cbn [length] in IH. rewrite Nat.add_1_r in IH.
    rewrite concat_app in IH. cbn [concat] in IH.
    rewrite IH by exact H. reflexivity.
Qed.

Lemma downmix_frames (frames : list (list Z)) nch :
  0 < nch ->
  Forall (fun fr => len fr = nch) frames ->
  downmix (concat frames) nch = Done (map (fun fr => frame_total fr / nch) frames).
Proof.
  intros Hn H. unfold downmix, py_range_step.
  destruct (Z.eqb_spec nch 0); [lia|].
  destruct (Z.ltb_spec 0 nch); [|lia].
  rewrite (len_concat_uniform frames nch H).
  set (c := if 0 <? _ then _ else _).
  assert (Hc : c = Z.of_nat (length frames)).
  { subst c. destruct (Z.ltb_spec 0 (Z.of_nat (length frames) * nch)).
    - replace (Z.of_nat (length frames) * nch - 1)
        with ((nch - 1) + (Z.of_nat (length frames) - 1) * nch) by lia.
      rewrite Z.div_add by lia. rewrite Z.div_small by lia. lia.
    - nia. }
  rewrite Hc, py_range_seq. cbn [bind].
  exact (downmix_frames_from [] frames nch H).
Qed.

Lemma floor_div_bounds total nch :
  0 < nch -> nch * (total / nch) <= total < nch * (total / nch) + nch.
Proof.
  intros H. pose proof (Z.div_mod total nch ltac:(lia)).
  pose proof (Z.mod_pos_bound total nch H). lia.
Qed.

(** C2: every frame of the decoded input is downmixed to the sum of its
    channel amplitudes floor-divided by the channel count, that is to the
    integer m with nch * m <= sum < nch * m + nch; a stereo frame (a, b)
    gives floor((a + b) / 2), and (100, -101) gives -1 where truncation
    toward zero would give 0. *)
Theorem C2_downmix_floor_division :
  (forall (frames : list (list Z)) (nch rate : Z),
      0 < nch ->
      Forall (fun fr => len fr = nch) frames ->
      read_wav_mono (Pcm nch rate (concat frames))
      = Done (map (fun fr => frame_total fr / nch) frames, rate)
      /\ Forall (fun fr => nch * (frame_total fr / nch) <= frame_total fr
                           < nch * (frame_total fr / nch) + nch) frames)
  /\ (forall a b rate : Z,
         read_wav_mono (Pcm 2 rate [a; b]) = Done ([(a + b) / 2], rate)
         /\ 2 * ((a + b) / 2) <= a + b < 2 * ((a + b) / 2) + 2)
  /\ (forall rate : Z, read_wav_mono (Pcm 2 rate [100; -101]) = Done ([-1], rate))
  /\ Z.quot (100 + -101) 2 = 0.
Proof.
  assert (G : forall (frames : list (list Z)) (nch rate : Z),
             0 < nch -> Forall (fun fr => len fr = nch) frames ->
             read_wav_mono (Pcm nch rate (concat frames))
             = Done (map (fun fr => frame_total fr / nch) frames, rate)).
  { intros frames nch rate Hn H. unfold read_wav_mono.
    rewrite downmix_frames by assumption. reflexivity. }
  split; [|split; [|split]].
  - intros frames nch rate Hn H. split; [apply G; assumption|].
    apply Forall_forall. intros fr _. apply floor_div_bounds. exact Hn.
  - intros a b rate. split; [|apply floor_div_bounds; lia].
    apply (G [[a; b]] 2 rate); [lia|]. repeat constructor.
  - intros rate. apply (G [[100; -101]] 2 rate); [lia|]. repeat constructor.
  - reflexivity.
Qed.

Lemma C2_downmix_floor_division_witness :
  read_wav_mono (Pcm 2 44100 (concat [[100; -101]; [3; 4]; [-7; -8]]))
  = Done ([-1; 3; -8], 44100).
Proof.
  apply (proj1 C2_downmix_floor_division [[100; -101]; [3; 4]; [-7; -8]] 2 44100).
  - lia.
  - repeat constructor.
Defined.

(** ** Finite results of the float operations *)

Import Float64 Float64Facts.

Lemma one_pos : 0 < one.
Proof. unfold one. apply Z.pow_pos_nonneg; lia. Qed.

Lemma representable_mul_pow2 m k :
  Z.abs m <= 2 ^ 53 -> 0 <= k -> representable (m * 2 ^ k).
Proof.
  intros Hm Hk.
  destruct (Z.eq_dec (Z.abs m) (2 ^ 53)) as [E|E].
  - exists (Z.sgn m), (53 + k). split; [|split].
    + rewrite Z.pow_add_r by lia. rewrite Z.mul_assoc. f_equal.
      rewrite <- E. symmetry. rewrite Z.mul_comm. apply Z.abs_sgn.
    + destruct m; cbn; lia.
    + lia.
  - exists m, k. split; [reflexivity | split; lia].
Qed.

(** An integer of at most 53 bits is a float. *)
Lemma representable_int s : Z.abs s <= 2 ^ 53 -> representable (s * one).
Proof. intros H. unfold one. apply representable_mul_pow2; lia. Qed.

Lemma representable_one : representable one.
Proof. rewrite <- (Z.mul_1_l one). apply representable_int. cbn. lia. Qed.

(** A rounded value caught between two finite grid values is finite and
    stays between them. *)
Lemma round64_between n d lo hi :
  0 < d -> representable lo -> representable hi ->
  lo * d <= n <= hi * d -> - top < lo -> hi < top ->
  exists x, round64 n d = Finite x /\ lo <= x <= hi.
Proof.
  intros Hd Hlo Hhi [H1 H2] Tl Th.
  pose proof (round_ne_lower n d lo Hd Hlo H1).
  pose proof (round_ne_upper n d hi Hd Hhi H2).
  exists (round_ne n d). split; [|lia].
  unfold round64. destruct (Z.ltb_spec (Z.abs (round_ne n d)) top); [reflexivity|lia].
Qed.

Lemma round64_exact g d :
  0 < d -> representable g -> Z.abs g < top -> round64 (g * d) d = Finite g.
Proof.
  intros Hd Hg Ht. unfold round64. rewrite round_ne_exact by assumption.
  destruct (Z.ltb_spec (Z.abs g) top); [reflexivity|lia].
Qed.

Lemma pow2_lt_top k : 0 <= k < 2098 -> 2 ^ k < top.
Proof. intros H. unfold top. apply Z.pow_lt_mono_r; lia. Qed.

Lemma int_lt_top s : Z.abs s <= 2 ^ 1023 -> Z.abs (s * one) < top.
Proof.
  intros H. rewrite Z.abs_mul, (Z.abs_eq one) by (pose proof one_pos; lia).
  unfold one, top. replace 2098 with (1024 + 1074) by lia.
  rewrite Z.pow_add_r by lia.
  assert (0 < 2 ^ 1074) by (apply Z.pow_pos_nonneg; lia).
  assert (2 ^ 1023 < 2 ^ 1024) by (apply Z.pow_lt_mono_r; lia).
  nia.
Qed.

Lemma of_int_exact s : Z.abs s <= 2 ^ 53 -> of_int s = Done (Finite (s * one)).
Proof.
  intros H. unfold of_int.
  rewrite <- (Z.mul_1_r (s * one)) at 1.
  rewrite round64_exact; [reflexivity | lia | apply representable_int; exact H |].
  apply int_lt_top.
  assert (2 ^ 53 <= 2 ^ 1023) by (apply Z.pow_le_mono_r; lia). lia.
Qed.

(** [a / b] with a positive divisor, bracketed by two grid values. *)
Lemma true_div_between a b lo hi :
  0 < b -> representable lo -> representable hi ->
  lo * b <= a * one <= hi * b -> - top < lo -> hi < top ->
  exists x, true_div a b = Done (Finite x) /\ lo <= x <= hi.
Proof.
  intros Hb Hlo Hhi Hn Tl Th. unfold true_div.
  destruct (Z.eqb_spec b 0); [lia|].
  destruct (Z.ltb_spec b 0); [lia|].
  destruct (round64_between (a * one) b lo hi) as (x & E & B); try assumption.
  exists x. rewrite E. split; [reflexivity | exact B].
Qed.

(** ** normalize *)

Lemma fold_left_max_abs l a :
  0 <= a -> fold_left Z.max (map Z.abs l) a = Z.max a (max_abs l).
Proof.
  revert a. induction l as [|x l IH]; intros a Ha; cbn [map fold_left max_abs fold_right].
  - lia.
  - rewrite IH by lia. fold (max_abs l). lia.
Qed.

Lemma max_abs_nonneg l : 0 <= max_abs l.
Proof.
  induction l as [|x l IH]; cbn [max_abs fold_right]; [lia|].
  fold (max_abs l). lia.
Qed.

Lemma peak_of_max_abs samples : samples <> [] -> peak_of samples = max_abs samples.
Proof.
  destruct samples as [|s rest]; [congruence|]. intros _.
  unfold peak_of. rewrite fold_left_max_abs by lia. reflexivity.
Qed.

Lemma max_abs_ge l x : In x l -> Z.abs x <= max_abs l.
Proof.
  induction l as [|y l IH]; cbn [In max_abs fold_right]; [tauto|].
  fold (max_abs l). intros [->|H]; [lia|]. specialize (IH H). lia.
Qed.

Lemma max_abs_le l T : 0 <= T -> Forall (fun x => Z.abs x <= T) l -> max_abs l <= T.
Proof.
  intros HT. induction 1 as [|x l Hx _ IH]; cbn [max_abs fold_right]; [lia|].
  fold (max_abs l). lia.
Qed.

Lemma max_abs_attained l : l <> [] -> exists x, In x l /\ Z.abs x = max_abs l.
Proof.
  induction l as [|y l IH]; [congruence|]. intros _.
  cbn [max_abs fold_right]. fold (max_abs l).
  destruct (Z.le_gt_cases (max_abs l) (Z.abs y)) as [H|H].
  - exists y. split; [left; reflexivity | lia].
  - destruct l as [|z l'].
    + cbn in H. lia.
    + destruct IH as (x & Hx & E); [congruence|].
      exists x. split; [right; exact Hx | lia].
Qed.

Lemma clamp16_id v : -32768 <= v <= 32767 -> clamp16 v = v.
Proof. unfold clamp16. lia. Qed.

Lemma clamp16_in16 v : in16 (clamp16 v).
Proof. unfold clamp16, in16. lia. Qed.

(** [mapM] succeeds as soon as its body succeeds on every element. *)
Lemma mapM_Done {A B : Type} (f : A -> outcome B) (R : A -> B -> Prop) l :
  (forall x, In x l -> exists y, f x = Done y /\ R x y) ->
  exists ys, mapM f l = Done ys /\ Forall2 R l ys.
Proof.
  induction l as [|x l IH]; intros H.
  - exists []. split; [reflexivity | constructor].
  - destruct (H x (or_introl eq_refl)) as (y & Ey & Ry).
    destruct IH as (ys & Eys & Rys); [intros z Hz; apply H; right; exact Hz|].
    exists (y :: ys). cbn [mapM]. rewrite Ey. cbn [bind]. rewrite Eys.
    split; [reflexivity | constructor; assumption].
Qed.

Lemma mapM_inv {A B : Type} (f : A -> outcome B) l ys :
  mapM f l = Done ys -> Forall2 (fun x y => f x = Done y) l ys.
Proof.
  revert ys. induction l as [|x l IH]; intros ys; cbn [mapM].
  - intros E. injection E as <-. constructor.
  - destruct (f x) as [y| |] eqn:Ey; cbn [bind]; try discriminate.
    destruct (mapM f l) as [zs| |]; cbn [bind]; try discriminate.
    intros E. injection E as <-. constructor; [exact Ey | apply IH; reflexivity].
Qed.

Lemma quot_abs_le y U T :
  0 < U -> - ((T + 1) * U) < y < (T + 1) * U -> Z.abs (Z.quot y U) <= T.
Proof.
  intros HU [H1 H2].
  destruct (Z.le_gt_cases 0 y) as [Hy|Hy].
  - rewrite Z.quot_div_nonneg by lia.
    assert (0 <= y / U) by (apply Z.div_pos; lia).
    assert (y / U < T + 1) by (apply Z.div_lt_upper_bound; lia). lia.
  - replace y with (- - y) by lia. rewrite Z.quot_opp_l by lia.
    rewrite Z.quot_div_nonneg by lia.
    assert (0 <= - y / U) by (apply Z.div_pos; lia).
    assert (- y / U < T + 1) by (apply Z.div_lt_upper_bound; lia). lia.
Qed.

Lemma quot_ge y U T : 0 < U -> 0 <= T -> T * U <= y -> T <= Z.quot y U.
Proof.
  intros HU HT H. rewrite Z.quot_div_nonneg by nia.
  apply Z.div_le_lower_bound; lia.
Qed.

Lemma quot_le_opp y U T : 0 < U -> 0 <= T -> y <= - (T * U) -> Z.quot y U <= - T.
Proof.
  intros HU HT H. replace y with (- - y) by lia. rewrite Z.quot_opp_l by lia.
  pose proof (quot_ge (- y) U T HU HT ltac:(lia)). lia.
Qed.

Lemma one_split : one = 2 ^ 38 * 2 ^ 1036.
Proof. unfold one. rewrite <- Z.pow_add_r by lia. reflexivity. Qed.

(** The scale factor [target_peak / peak] lies within one step of a grid of
    spacing 2^-38 around the exact quotient. *)
Lemma normalize_scale T P :
  0 < T < 32768 -> 1 <= P <= 32768 ->
  exists sc, true_div T P = Done (Finite sc)
             /\ (T * 2 ^ 38 / P) * 2 ^ 1036 <= sc
             /\ sc <= (T * 2 ^ 38 / P + 1) * 2 ^ 1036.
Proof.
  intros HT HP.
  set (j := T * 2 ^ 38 / P).
  assert (Hj : P * j <= T * 2 ^ 38 < P * j + P).
  { subst j. split; [apply Z.mul_div_le; lia|].
    pose proof (Z.mul_succ_div_gt (T * 2 ^ 38) P ltac:(lia)). lia. }
  assert (Hj0 : 0 <= j) by (subst j; apply Z.div_pos; lia).
  assert (Hj1 : j + 1 <= 2 ^ 53) by nia.
  assert (G : 0 < 2 ^ 1036) by (apply Z.pow_pos_nonneg; lia).
  destruct (true_div_between T P (j * 2 ^ 1036) ((j + 1) * 2 ^ 1036))
    as (sc & E & B).
  - lia.
  - apply representable_mul_pow2; lia.
  - apply representable_mul_pow2; lia.
  - rewrite one_split. generalize dependent (2 ^ 1036). intros g; intros. nia.
  - pose proof (pow2_lt_top 0 ltac:(lia)). nia.
  - assert ((j + 1) * 2 ^ 1036 <= 2 ^ 53 * 2 ^ 1036)
      by (apply Z.mul_le_mono_nonneg_r; lia).
    rewrite <- Z.pow_add_r in H by lia.
    pose proof (pow2_lt_top (53 + 1036) ltac:(lia)). lia.
  - exists sc. split; [exact E | lia].
Qed.

Lemma round64_Finite_inv n d x : round64 n d = Finite x -> x = round_ne n d.
Proof.
  unfold round64. destruct (Z.abs (round_ne n d) <? top); [|discriminate].
  intros E. injection E as <-. reflexivity.
Qed.

(** One sample through [max(-32768, min(32767, int(s * scale)))]. *)
Lemma normalize_sample T P sc s :
  0 < T < 32768 -> 1 <= P <= 32768 ->
  (T * 2 ^ 38 / P) * 2 ^ 1036 <= sc <= (T * 2 ^ 38 / P + 1) * 2 ^ 1036 ->
  Z.abs s <= P ->
  exists v, (p <- int_mul s (Finite sc) ;; v <- to_int p ;; Done (clamp16 v)) = Done v
            /\ Z.abs v <= T
            /\ (Z.abs s = P -> T - 1 <= Z.abs v).
Proof.
  intros HT HP Hsc Hs.
  set (j := T * 2 ^ 38 / P) in *.
  assert (Hj : P * j <= T * 2 ^ 38 < P * j + P).
  { subst j. split; [apply Z.mul_div_le; lia|].
    pose proof (Z.mul_succ_div_gt (T * 2 ^ 38) P ltac:(lia)). lia. }
  assert (Hj0 : 0 <= j) by (subst j; apply Z.div_pos; lia).
  pose proof one_pos as U.
  assert (R1 : representable ((T * 2 ^ 38 + 2 ^ 15) * 2 ^ 1036))
    by (apply representable_mul_pow2; lia).
  assert (R2 : representable (- ((T * 2 ^ 38 + 2 ^ 15) * 2 ^ 1036)))
    by (apply representable_opp; exact R1).
  assert (R3 : representable ((T - 1) * one)) by (apply representable_int; lia).
  assert (R4 : representable (- ((T - 1) * one))) by (apply representable_opp; exact R3).
  assert (Ttop : (T * 2 ^ 38 + 2 ^ 15) * 2 ^ 1036 < top).
  { assert ((T * 2 ^ 38 + 2 ^ 15) * 2 ^ 1036 <= 2 ^ 53 * 2 ^ 1036)
      by (apply Z.mul_le_mono_nonneg_r; [apply Z.pow_nonneg|]; lia).
    rewrite <- Z.pow_add_r in H by lia.
    pose proof (pow2_lt_top (53 + 1036) ltac:(lia)). lia. }
  pose proof one_split as OS.
  assert (G : 0 < 2 ^ 1036) by (apply Z.pow_pos_nonneg; lia).
  set (g := 2 ^ 1036) in *. clearbody g.
  set (hi := (T * 2 ^ 38 + 2 ^ 15) * g) in *.
  assert (A : 0 <= sc) by nia.
  assert (B : P * sc <= hi).
  { assert (P * sc <= P * ((j + 1) * g)) by (apply Z.mul_le_mono_nonneg_l; lia).
    assert (P * (j + 1) * g <= (T * 2 ^ 38 + 2 ^ 15) * g)
      by (apply Z.mul_le_mono_nonneg_r; lia).
    subst hi. lia. }
  assert (C : - hi <= s * sc <= hi).
  { assert (Z.abs (s * sc) <= P * sc)
      by (rewrite Z.abs_mul, (Z.abs_eq sc) by lia;
          apply Z.mul_le_mono_nonneg_r; lia).
    lia. }
  assert (D : (T - 1) * one <= P * sc).
  { assert (P * (j * g) <= P * sc) by (apply Z.mul_le_mono_nonneg_l; lia).
    assert ((T - 1) * 2 ^ 38 * g <= P * j * g)
      by (apply Z.mul_le_mono_nonneg_r; lia).
    rewrite OS. lia. }
  assert (HiT : hi < (T + 1) * one).
  { rewrite OS. subst hi.
    replace ((T + 1) * (2 ^ 38 * g)) with ((T + 1) * 2 ^ 38 * g) by ring.
    apply Z.mul_lt_mono_pos_r; lia. }
  unfold int_mul. rewrite of_int_exact by lia. cbn [bind mul].
  destruct (round64_between (s * one * sc) one (- hi) hi) as (y & Ey & By);
    try assumption; try lia.
  { split.
    - replace (s * one * sc) with (s * sc * one) by ring.
      apply Z.mul_le_mono_nonneg_r; lia.
    - replace (s * one * sc) with (s * sc * one) by ring.
      apply Z.mul_le_mono_nonneg_r; lia. }
  rewrite Ey. cbn [to_int bind].
  assert (V : Z.abs (Z.quot y one) <= T) by (apply quot_abs_le; lia).
  exists (Z.quot y one). rewrite clamp16_id by lia.
  split; [reflexivity|]. split; [exact V|].
  intros HsP. apply round64_Finite_inv in Ey.
  destruct (Z.abs_spec s) as [[Hs0 Es]|[Hs0 Es]].
  - assert ((T - 1) * one <= y).
    { rewrite Ey. apply round_ne_lower; [lia | exact R3 |].
      replace (s * one * sc) with (s * sc * one) by ring.
      apply Z.mul_le_mono_nonneg_r; [lia|]. rewrite <- Es, HsP. exact D. }
    pose proof (quot_ge y one (T - 1) U ltac:(lia) H). lia.
  - assert (y <= - ((T - 1) * one)).
    { rewrite Ey. apply round_ne_upper; [lia | exact R4 |].
      replace (s * one * sc) with (s * sc * one) by ring.
      apply Z.mul_le_mono_nonneg_r; [lia|].
      replace s with (- P) by lia. lia. }
    pose proof (quot_le_opp y one (T - 1) U ltac:(lia) H). lia.
Qed.

Lemma Forall2_length_eq {A B : Type} (R : A -> B -> Prop) l l' :
  Forall2 R l l' -> length l = length l'.
Proof. induction 1; cbn; congruence. Qed.

Lemma Forall2_In_l {A B : Type} (R : A -> B -> Prop) l l' x :
  Forall2 R l l' -> In x l -> exists y, In y l' /\ R x y.
Proof.
  induction 1 as [|a b l l' Hab _ IH]; cbn [In]; [tauto|].
  intros [->|H].
  - exists b. split; [left; reflexivity | exact Hab].
  - destruct (IH H) as (y & Hy & Ry). exists y. split; [right; exact Hy | exact Ry].
Qed.

Lemma Forall2_In_r {A B : Type} (R : A -> B -> Prop) l l' y :
  Forall2 R l l' -> In y l' -> exists x, In x l /\ R x y.
Proof.
  induction 1 as [|a b l l' Hab _ IH]; cbn [In]; [tauto|].
  intros [->|H].
  - exists a. split; [left; reflexivity | exact Hab].
  - destruct (IH H) as (x & Hx & Rx). exists x. split; [right; exact Hx | exact Rx].
Qed.

Lemma in16_abs s : in16 s -> Z.abs s <= 32768.
Proof. unfold in16. lia. Qed.

(** Each sample of a non-silent 16-bit buffer is rescaled to at most the
    target peak, and a sample at the peak to at least the target peak minus
    the unit lost by [int()]. *)
Lemma normalize_nonsilent (samples : list Z) (target_peak : Z) :
  samples <> [] ->
  Forall in16 samples ->
  max_abs samples <> 0 ->
  0 < target_peak < 32768 ->
  exists out,
    normalize samples target_peak = Done out
    /\ Forall2 (fun s v => Z.abs v <= target_peak
                           /\ (Z.abs s = max_abs samples -> target_peak - 1 <= Z.abs v))
               samples out.
Proof.
  intros Hne H16 Hpk HT.
  unfold normalize. rewrite peak_of_max_abs by exact Hne.
  set (P := max_abs samples) in *.
  assert (HP : 1 <= P <= 32768).
  { pose proof (max_abs_nonneg samples). fold P in H. split; [lia|].
    apply max_abs_le; [lia|].
    apply Forall_forall. intros x Hx. apply in16_abs.
    rewrite Forall_forall in H16. apply H16. exact Hx. }
  destruct (Z.eqb_spec P 0); [lia|].
  destruct (normalize_scale target_peak P HT HP) as (sc & Esc & Bsc).
  rewrite Esc. cbn [bind].
  apply mapM_Done.
  intros s Hs. apply (normalize_sample target_peak P sc s HT HP); [lia|].
  apply max_abs_ge. exact Hs.
Qed.

(** C3: for a non-empty, non-silent buffer of 16-bit samples and a target
    peak with 0 < target_peak < 32768, normalize returns a buffer of the
    same length whose largest absolute amplitude is target_peak or
    target_peak - 1 (the float product is truncated toward zero). *)
Theorem C3_normalize_reaches_target_peak (samples : list Z) (target_peak : Z) :
  samples <> [] ->
  Forall in16 samples ->
  max_abs samples <> 0 ->
  0 < target_peak < 32768 ->
  exists out,
    normalize samples target_peak = Done out
    /\ length out = length samples
    /\ target_peak - 1 <= max_abs out <= target_peak.
Proof.
  intros Hne H16 Hpk HT.
  destruct (normalize_nonsilent samples target_peak Hne H16 Hpk HT)
    as (out & Eout & Rout).
  exists out. split; [exact Eout|]. split.
  - symmetry. eapply Forall2_length_eq. exact Rout.
  - split.
    + destruct (max_abs_attained samples Hne) as (s & Hs & Es).
      destruct (Forall2_In_l _ _ _ _ Rout Hs) as (v & Hv & _ & Hlow).
      pose proof (max_abs_ge out v Hv). specialize (Hlow Es). lia.
    + apply max_abs_le; [lia|]. apply Forall_forall. intros v Hv.
      destruct (Forall2_In_r _ _ _ _ Rout Hv) as (s & _ & Hup & _). exact Hup.
Qed.

Lemma C3_normalize_reaches_target_peak_witness :
  exists out,
    normalize [0; 5; -49; 12] 28000 = Done out
    /\ length out = length [0; 5; -49; 12]
    /\ 28000 - 1 <= max_abs out <= 28000.
Proof.
  apply (C3_normalize_reaches_target_peak [0; 5; -49; 12] 28000).
  - discriminate.
  - repeat constructor; unfold in16; lia.
  - vm_compute. discriminate.
  - lia.
Defined.

Lemma normalize_empty target_peak :
  Z.abs target_peak <= 2 ^ 1023 -> normalize [] target_peak = Done [].
Proof.
  intros HT. unfold normalize. cbn [peak_of]. cbn [Z.eqb].
  assert (P : 0 < 2 ^ 2097) by (apply Z.pow_pos_nonneg; lia).
  assert (E : 2 ^ 2097 = 2 ^ 1023 * one)
    by (unfold one; rewrite <- Z.pow_add_r by lia; reflexivity).
  pose proof one_pos.
  destruct (true_div_between target_peak 1 (- (1 * 2 ^ 2097)) (1 * 2 ^ 2097))
    as (sc & Esc & _).
  - lia.
  - apply representable_opp, representable_mul_pow2; lia.
  - apply representable_mul_pow2; lia.
  - rewrite E. nia.
  - pose proof (pow2_lt_top 2097 ltac:(lia)). lia.
  - pose proof (pow2_lt_top 2097 ltac:(lia)). lia.
  - rewrite Esc. reflexivity.
Qed.

Lemma normalize_silent samples target_peak :
  samples <> [] -> max_abs samples = 0 -> normalize samples target_peak = Done samples.
Proof.
  intros Hne H0. unfold normalize.
  rewrite peak_of_max_abs by exact Hne. rewrite H0. reflexivity.
Qed.

(** C5: an empty buffer and a buffer whose peak absolute amplitude is zero
    come back from normalize unmodified, as a normal return (no exception,
    no division by zero). *)
Theorem C5_normalize_silent_passthrough :
  (forall target_peak : Z,
      Z.abs target_peak <= 2 ^ 1023 ->
      normalize [] target_peak = Done [])
  /\ (forall (samples : list Z) (target_peak : Z),
         samples <> [] ->
         max_abs samples = 0 ->
         normalize samples target_peak = Done samples).
Proof.
  split.
  - exact normalize_empty.
  - exact normalize_silent.
Qed.

Lemma C5_normalize_silent_passthrough_witness :
  normalize [] 28000 = Done [] /\ normalize [0; 0; 0] 28000 = Done [0; 0; 0].
Proof.
  split.
  - apply (proj1 C5_normalize_silent_passthrough 28000).
    assert (2 ^ 15 <= 2 ^ 1023) by (apply Z.pow_le_mono_r; lia). cbn [Z.abs]. lia.
  - apply (proj2 C5_normalize_silent_passthrough [0; 0; 0] 28000).
    + discriminate.
    + reflexivity.
Defined.

(** ** downsample *)

Lemma to_int_whole k : to_int (Finite (k * one)) = Done k.
Proof.
  cbn [to_int]. rewrite Z.quot_mul; [reflexivity|]. pose proof one_pos. lia.
Qed.

Lemma true_div_same rate : rate <> 0 -> true_div rate rate = Done (Finite one).
Proof.
  intros H. unfold true_div.
  destruct (Z.eqb_spec rate 0); [contradiction|].
  assert (T : Z.abs one < top).
  { rewrite <- (Z.mul_1_l one). apply int_lt_top.
    assert (1 <= 2 ^ 1023) by (apply (Z.pow_le_mono_r 2 0); lia).
    cbn [Z.abs]. lia. }
  destruct (Z.ltb_spec rate 0).
  - replace (- rate * one) with (one * - rate) by ring.
    rewrite round64_exact; [reflexivity | lia | apply representable_one | exact T].
  - replace (rate * one) with (one * rate) by ring.
    rewrite round64_exact; [reflexivity | lia | apply representable_one | exact T].
Qed.

Lemma add_whole k :
  Z.abs (k + 1) <= 2 ^ 53 ->
  add (Finite (k * one)) (Finite one) = Finite ((k + 1) * one).
Proof.
  intros H. cbn [add].
  replace (k * one + one) with ((k + 1) * one * 1) by ring.
  apply round64_exact; [lia | apply representable_int; exact H |].
  apply int_lt_top.
  assert (2 ^ 53 <= 2 ^ 1023) by (apply Z.pow_le_mono_r; lia). lia.
Qed.

(** With a ratio of exactly 1.0 the cursor visits 0.0, 1.0, 2.0, ... and the
    loop copies the buffer. *)
Lemma downsample_loop_identity rest :
  forall pre fuel,
    len (pre ++ rest) <= 2 ^ 53 ->
    (length rest < fuel)%nat ->
    downsample_loop fuel (pre ++ rest) (Finite one) (Finite (len pre * one)) pre
    = Done (pre ++ rest).
Proof.
  induction rest as [|x rest IH]; intros pre fuel Hlen Hfuel;
    (destruct fuel as [|fuel]; [cbn in Hfuel; lia|]);
    cbn [downsample_loop]; rewrite to_int_whole; cbn [bind].
  - rewrite app_nil_r. rewrite Z.ltb_irrefl. reflexivity.
  - pose proof (len_nonneg pre). pose proof (len_nonneg rest).
    rewrite len_app, len_cons in Hlen.
    destruct (Z.ltb_spec (len pre) (len (pre ++ x :: rest)));
      [|rewrite len_app, len_cons in *; lia].
    rewrite py_index_app_mid. cbn [bind].
    rewrite add_whole by lia.
    replace (len pre + 1) with (len (pre ++ [x]))
      by (rewrite len_app, len_cons; cbn; lia).
    replace (pre ++ x :: rest) with ((pre ++ [x]) ++ rest)
      by (rewrite <- app_assoc; reflexivity).
    apply IH.
    + rewrite <- app_assoc. cbn [app]. rewrite len_app, len_cons. lia.
    + cbn [length] in Hfuel. lia.
Qed.

(** C9: when the source rate equals the destination rate the ratio is
    exactly 1.0, the cursor advances by whole steps, and downsample returns
    the input buffer (of any length a 53-bit cursor can count). *)
Theorem C9_downsample_equal_rates_identity
        (samples : list Z) (rate : Z) (fuel : nat) :
  0 < rate ->
  len samples <= 2 ^ 53 ->
  (length samples < fuel)%nat ->
  downsample fuel samples rate rate = Done samples.
Proof.
  intros Hr Hlen Hfuel. unfold downsample.
  rewrite true_div_same by lia. cbn [bind].
  exact (downsample_loop_identity samples [] fuel Hlen Hfuel).
Qed.

Lemma C9_downsample_equal_rates_identity_witness :
  downsample 8 [3; -1; 4; 1; -5; 9] 16000 16000 = Done [3; -1; 4; 1; -5; 9].
Proof.
  apply (C9_downsample_equal_rates_identity [3; -1; 4; 1; -5; 9] 16000 8).
  - lia.
  - vm_compute. discriminate.
  - cbn [length]. lia.
Defined.

(** The loop only ever appends to [out]. *)
Lemma downsample_loop_extends samples ratio fuel :
  forall i out res,
    downsample_loop fuel samples ratio i out = Done res ->
    exists tl, res = out ++ tl.
Proof.
  induction fuel as [|fuel IH]; intros i out res; cbn [downsample_loop].
  - discriminate.
  - destruct (to_int i) as [idx| |]; cbn [bind]; try discriminate.
    destruct (idx <? len samples).
    + destruct (py_index samples idx) as [x| |]; cbn [bind]; try discriminate.
      intros E. destruct (IH _ _ _ E) as (tl & ->).
      exists (x :: tl). rewrite <- app_assoc. reflexivity.
    + intros E. injection E as <-. exists []. rewrite app_nil_r. reflexivity.
Qed.

Lemma py_index_head x rest : py_index (x :: rest) 0 = Done x.
Proof. exact (py_index_app_mid [] x rest). Qed.

Lemma downsample_keeps_onset x rest src_rate dst_rate fuel out :
  downsample fuel (x :: rest) src_rate dst_rate = Done out ->
  exists tl, out = x :: tl.
Proof.
  unfold downsample.
  destruct (true_div src_rate dst_rate) as [ratio| |]; cbn [bind]; try discriminate.
  destruct fuel as [|fuel]; cbn [downsample_loop]; [discriminate|].
  change (to_int (Finite 0)) with (Done (Z.quot 0 one)).
  rewrite Z.quot_0_l by (pose proof one_pos; lia). cbn [bind].
  pose proof (len_nonneg rest).
  destruct (Z.ltb_spec 0 (len (x :: rest))); [|rewrite len_cons in *; lia].
  rewrite py_index_head. cbn [bind app].
  intros E. apply downsample_loop_extends in E. exact E.
Qed.

(** *** Every rounded value is on the grid, and the grid has a next point *)

Lemma quotient_below_binade n d :
  0 < d -> 0 <= n -> n / d < 2 ^ (53 + drop n d).
Proof.
  intros Hd Hn. unfold drop.
  assert (F : 0 <= n / d) by (apply Z.div_pos; lia).
  destruct (Z.eq_dec (n / d) 0) as [E|E].
  - rewrite E. apply Z.pow_pos_nonneg; lia.
  - pose proof (Z.log2_spec (n / d) ltac:(lia)) as [_ L].
    pose proof (Z.log2_nonneg (n / d)).
    eapply Z.lt_le_trans; [exact L|].
    apply Z.pow_le_mono_r; lia.
Qed.

Lemma round_mag_representable n d :
  0 < d -> 0 <= n -> representable (round_mag n d).
Proof.
  intros Hd Hn. unfold round_mag.
  pose proof (drop_nonneg n d) as K.
  pose proof (quotient_below_binade n d Hd Hn) as Q.
  set (k := drop n d) in *.
  assert (P : 0 < 2 ^ k) by (apply Z.pow_pos_nonneg; lia).
  apply representable_mul_pow2; [|exact K].
  pose proof (rhe_nonneg n (d * 2 ^ k) ltac:(nia) Hn).
  assert (round_half_even n (d * 2 ^ k) <= 2 ^ 53); [|lia].
  apply rhe_upper; [nia|].
  rewrite Z.pow_add_r in Q by lia.
  pose proof (Z.mul_succ_div_gt n d Hd).
  assert (d * Z.succ (n / d) <= d * (2 ^ 53 * 2 ^ k))
    by (apply Z.mul_le_mono_nonneg_l; lia).
  lia.
Qed.

Lemma round_ne_representable n d : 0 < d -> representable (round_ne n d).
Proof.
  intros Hd. unfold round_ne. destruct (Z.ltb_spec n 0).
  - apply representable_opp, round_mag_representable; lia.
  - apply round_mag_representable; lia.
Qed.

(** The spacing of the grid at [x] is [2 ^ drop x 1]: one step up from a
    grid value is again a grid value. *)
Lemma next_representable x :
  0 <= x -> representable x -> representable (x + 2 ^ drop x 1).
Proof.
  intros Hx (m & j & -> & Hm & Hj).
  pose proof (drop_nonneg (m * 2 ^ j) 1) as K.
  pose proof (quotient_below_binade (m * 2 ^ j) 1 ltac:(lia) Hx) as Q.
  pose proof (drop_pos_large (m * 2 ^ j) 1) as B.
  rewrite Z.div_1_r in Q, B.
  set (k := drop (m * 2 ^ j) 1) in *.
  assert (P : 0 < 2 ^ k) by (apply Z.pow_pos_nonneg; lia).
  assert (Pj : 0 < 2 ^ j) by (apply Z.pow_pos_nonneg; lia).
  destruct (Z.le_gt_cases k j) as [Hkj|Hkj].
  - assert (E : 2 ^ j = 2 ^ (j - k) * 2 ^ k)
      by (rewrite <- Z.pow_add_r by lia; f_equal; lia).
    rewrite E in *. rewrite Z.mul_assoc in *.
    replace (m * 2 ^ (j - k) * 2 ^ k + 2 ^ k)
      with ((m * 2 ^ (j - k) + 1) * 2 ^ k) by ring.
    apply representable_mul_pow2; [|lia].
    rewrite Z.pow_add_r in Q by lia.
    assert (0 <= m * 2 ^ (j - k)) by nia.
    assert (m * 2 ^ (j - k) < 2 ^ 53) by nia.
    lia.
  - exfalso.
    pose proof (representable_small m j k Hm ltac:(lia)).
    specialize (B ltac:(lia)). lia.
Qed.

Lemma py_index_inside xs i :
  0 <= i < len xs -> exists v, py_index xs i = Done v /\ In v xs.
Proof.
  intros H. unfold py_index.
  destruct (Z.ltb_spec i 0); [lia|].
  destruct (Z.leb_spec 0 i); [|lia].
  destruct (Z.ltb_spec i (len xs)); [|lia]. cbn [andb].
  destruct (nth_error xs (Z.to_nat i)) as [v|] eqn:E.
  - exists v. split; [reflexivity|]. eapply nth_error_In. exact E.
  - apply nth_error_None in E. unfold len in H. lia.
Qed.

Lemma py_index_In xs i v : py_index xs i = Done v -> In v xs.
Proof.
  unfold py_index.
  destruct ((0 <=? (if i <? 0 then i + len xs else i))
            && ((if i <? 0 then i + len xs else i) <? len xs)); [|discriminate].
  destruct (nth_error xs _) as [w|] eqn:E; [|discriminate].
  intros H. injection H as <-. eapply nth_error_In. exact E.
Qed.

(** *** Termination of the cursor walk *)

Section CursorWalk.

Variable samples : list Z.
Variable r : Z.

(** The ratio is finite, and at least the spacing of the grid wherever
    the cursor can be while it is still inside the buffer. *)
Hypothesis ratio_le : r <= 2 ^ 970 * one.
Hypothesis ratio_ge : forall x, 0 <= x < len samples * one -> 2 ^ drop x 1 <= r.
Hypothesis buffer_le : len samples <= 2 ^ 1022.

Lemma cursor_step x :
  0 <= x < len samples * one -> representable x ->
  exists x', add (Finite x) (Finite r) = Finite x'
             /\ x < x' /\ representable x'.
Proof.
  intros Hx Rx. cbn [add].
  pose proof one_pos as U.
  pose proof (drop_nonneg x 1) as K.
  assert (P : 0 < 2 ^ drop x 1) by (apply Z.pow_pos_nonneg; lia).
  assert (E1 : 2 ^ 1023 = 2 * 2 ^ 1022) by (rewrite <- (Z.pow_succ_r 2 1022); [reflexivity|lia]).
  assert (E2 : 2 ^ 970 <= 2 ^ 1022) by (apply Z.pow_le_mono_r; lia).
  assert (E3 : 0 < 2 ^ 970) by (apply Z.pow_pos_nonneg; lia).
  destruct (round64_between (x + r) 1 (x + 2 ^ drop x 1) (2 ^ 1023 * one))
    as (x' & Ex & Bx).
  - lia.
  - apply next_representable; [lia | exact Rx].
  - rewrite Z.mul_comm. unfold one. rewrite <- Z.pow_add_r by lia.
    rewrite <- (Z.mul_1_l (2 ^ _)). apply representable_mul_pow2; cbn; lia.
  - pose proof (ratio_ge x Hx). split; [lia|].
    assert (len samples * one <= 2 ^ 1022 * one)
      by (apply Z.mul_le_mono_nonneg_r; lia).
    nia.
  - pose proof (pow2_lt_top 0 ltac:(lia)). lia.
  - pose proof (int_lt_top (2 ^ 1023) ltac:(lia)). lia.
  - exists x'. split; [exact Ex|]. split; [lia|].
    apply round64_Finite_inv in Ex. rewrite Ex.
    apply round_ne_representable. lia.
Qed.

Lemma downsample_loop_terminates (n : nat) :
  forall x out,
    0 <= x -> representable x ->
    (Z.to_nat (len samples * one - x) < n)%nat ->
    exists fuel res,
      downsample_loop fuel samples (Finite r) (Finite x) out = Done res.
Proof.
  pose proof one_pos as U.
  induction n as [|n IH]; intros x out Hx Rx Hn; [lia|].
  assert (Q : Z.quot x one = x / one) by (apply Z.quot_div_nonneg; lia).
  assert (D : 0 <= x / one) by (apply Z.div_pos; lia).
  destruct (Z.lt_ge_cases (x / one) (len samples)) as [Hin|Hout].
  - assert (Hx' : x < len samples * one).
    { pose proof (Z.mul_succ_div_gt x one U).
      assert (one * Z.succ (x / one) <= one * len samples)
        by (apply Z.mul_le_mono_nonneg_l; lia).
      lia. }
    destruct (py_index_inside samples (x / one) ltac:(lia)) as (v & Ev & _).
    destruct (cursor_step x ltac:(lia) Rx) as (x' & Ex & Lt & Rx').
    destruct (IH x' (out ++ [v]) ltac:(lia) Rx' ltac:(lia)) as (fuel & res & E).
    exists (S fuel), res. cbn [downsample_loop to_int bind].
    rewrite Q. destruct (Z.ltb_spec (x / one) (len samples)); [|lia].
    rewrite Ev. cbn [bind]. rewrite Ex. exact E.
  - exists 1%nat, out. cbn [downsample_loop to_int bind].
    rewrite Q. destruct (Z.ltb_spec (x / one) (len samples)); [lia|]. reflexivity.
Qed.

End CursorWalk.

Lemma true_div_pos_inv a b x :
  0 < b -> true_div a b = Done (Finite x) -> x = round_ne (a * one) b.
Proof.
  intros Hb. unfold true_div.
  destruct (Z.eqb_spec b 0); [lia|].
  destruct (Z.ltb_spec b 0); [lia|].
  destruct (round64 (a * one) b) as [y| |] eqn:E; try discriminate.
  intros Ey. injection Ey as <-. apply round64_Finite_inv. exact E.
Qed.

(** A ratio that underflows to 0.0 never moves the cursor. *)
Lemma downsample_loop_stuck fuel :
  forall out, downsample_loop fuel [5] (Finite 0) (Finite 0) out = OutOfFuel.
Proof.
  induction fuel as [|fuel IH]; intros out; [reflexivity|].
  cbn [downsample_loop].
  change (to_int (Finite 0)) with (Done (Z.quot 0 one)).
  rewrite Z.quot_0_l by (pose proof one_pos; lia). cbn [bind].
  change (0 <? len [5]) with true. cbv iota.
  rewrite py_index_head. cbn [bind].
  replace (add (Finite 0) (Finite 0)) with (Finite 0) by (vm_compute; reflexivity).
  apply IH.
Qed.

Lemma true_div_underflow : true_div 1 (2 ^ 1100) = Done (Finite 0).
Proof. vm_compute. reflexivity. Qed.

(** For a one-sample buffer and the positive rates 1 and 2^1100 the ratio
    is 0.0 and [downsample] has no output at all. *)
Lemma C10_counterexample :
  ~ (exists fuel out, downsample fuel [5] 1 (2 ^ 1100) = Done out).
Proof.
  intros (fuel & out & E). unfold downsample in E.
  rewrite true_div_underflow in E. cbn [bind] in E.
  rewrite downsample_loop_stuck in E. discriminate.
Qed.

(** ** The amplitude range through the stages *)

Lemma Forall_skipn_keep {A : Type} (P : A -> Prop) n (l : list A) :
  Forall P l -> Forall P (skipn n l).
Proof.
  revert l. induction n as [|n IH]; intros l H; [exact H|].
  destruct H as [|x l Hx Hl]; [constructor | apply IH; exact Hl].
Qed.

Lemma Forall_firstn_keep {A : Type} (P : A -> Prop) n (l : list A) :
  Forall P l -> Forall P (firstn n l).
Proof.
  revert l. induction n as [|n IH]; intros l H; [constructor|].
  destruct H as [|x l Hx Hl]; [constructor | constructor; [exact Hx | apply IH; exact Hl]].
Qed.

Lemma fold_left_raised {A : Type} (f : outcome Z -> A -> outcome Z) l c :
  (forall a, f (Raised c) a = Raised c) ->
  fold_left f l (Raised c) = Raised c.
Proof. intros H. induction l as [|a l IH]; cbn [fold_left]; [reflexivity | rewrite H; exact IH]. Qed.

Lemma fold_left_out_of_fuel {A : Type} (f : outcome Z -> A -> outcome Z) l :
  (forall a, f OutOfFuel a = OutOfFuel) ->
  fold_left f l OutOfFuel = OutOfFuel.
Proof. intros H. induction l as [|a l IH]; cbn [fold_left]; [reflexivity | rewrite H; exact IH]. Qed.

(** The sum of [n] samples of a 16-bit buffer lies in [n] times the range. *)
Lemma frame_sum_range samples i (cs : list Z) :
  Forall in16 samples ->
  forall acc total,
    fold_left (fun a c => s <- a ;; x <- py_index samples (i + c) ;; Done (s + x))
              cs (Done acc) = Done total ->
    acc - 32768 * len cs <= total <= acc + 32767 * len cs.
Proof.
  intros H16. induction cs as [|c cs IH]; intros acc total; cbn [fold_left bind].
  - intros E. injection E as <-. unfold len. cbn. lia.
  - destruct (py_index samples (i + c)) as [x| |] eqn:Ex; cbn [bind].
    + intros E. apply IH in E. apply py_index_In in Ex.
      rewrite Forall_forall in H16. specialize (H16 x Ex). unfold in16 in H16.
      rewrite len_cons. lia.
    + rewrite fold_left_raised by reflexivity. discriminate.
    + rewrite fold_left_out_of_fuel by reflexivity. discriminate.
Qed.

Lemma len_py_range n : 0 <= n -> len (py_range n) = n.
Proof.
  intros H. unfold len, py_range. rewrite length_map, length_seq. lia.
Qed.

Lemma downmix_range samples nch mono :
  Forall in16 samples -> downmix samples nch = Done mono -> Forall in16 mono.
Proof.
  intros H16. unfold downmix, py_range_step.
  destruct (Z.eqb_spec nch 0); [discriminate|].
  destruct (Z.ltb_spec 0 nch) as [Hn|Hn]; cbn [bind].
  - intros E. apply mapM_inv in E.
    apply Forall_forall. intros m Hm.
    destruct (Forall2_In_r _ _ _ _ E Hm) as (i & _ & Ei).
    destruct (frame_sum samples i nch) as [total| |] eqn:Et; cbn [bind] in Ei;
      try discriminate.
    injection Ei as <-. unfold frame_sum in Et.
    apply (frame_sum_range samples i _ H16) in Et.
    rewrite len_py_range in Et by lia. unfold in16. split.
    + apply Z.div_le_lower_bound; lia.
    + apply Z.div_le_upper_bound; lia.
  - pose proof (len_nonneg samples).
    destruct (Z.ltb_spec (len samples) 0); [lia|].
    cbn. intros E. injection E as <-. constructor.
Qed.

Lemma downsample_loop_range samples ratio fuel :
  Forall in16 samples ->
  forall i out res,
    Forall in16 out ->
    downsample_loop fuel samples ratio i out = Done res -> Forall in16 res.
Proof.
  intros H16. induction fuel as [|fuel IH]; intros i out res Hout; cbn [downsample_loop].
  - discriminate.
  - destruct (to_int i) as [idx| |]; cbn [bind]; try discriminate.
    destruct (idx <? len samples).
    + destruct (py_index samples idx) as [x| |] eqn:Ex; cbn [bind]; try discriminate.
      apply IH. apply Forall_app. split; [exact Hout|].
      constructor; [|constructor].
      rewrite Forall_forall in H16. apply H16. eapply py_index_In. exact Ex.
    + intros E. injection E as <-. exact Hout.
Qed.

Lemma downsample_range samples src_rate dst_rate fuel out :
  Forall in16 samples ->
  downsample fuel samples src_rate dst_rate = Done out -> Forall in16 out.
Proof.
  intros H16. unfold downsample.
  destruct (true_div src_rate dst_rate) as [ratio| |]; cbn [bind]; try discriminate.
  apply downsample_loop_range; [exact H16 | constructor].
Qed.

Lemma mapM_clamp_range (f : Z -> outcome Z) samples out :
  mapM (fun s => v <- f s ;; Done (clamp16 v)) samples = Done out -> Forall in16 out.
Proof.
  intros E. apply mapM_inv in E. apply Forall_forall. intros v Hv.
  destruct (Forall2_In_r _ _ _ _ E Hv) as (s & _ & Es).
  destruct (f s) as [w| |]; cbn [bind] in Es; try discriminate.
  injection Es as <-. apply clamp16_in16.
Qed.

Lemma normalize_range samples target_peak out :
  Forall in16 samples ->
  normalize samples target_peak = Done out -> Forall in16 out.
Proof.
  intros H16. unfold normalize.
  destruct (peak_of samples =? 0).
  - intros E. injection E as <-. exact H16.
  - destruct (true_div target_peak (peak_of samples)) as [scale| |]; cbn [bind];
      try discriminate.
    intros E.
    apply (mapM_clamp_range (fun s => p <- int_mul s scale ;; to_int p) samples out).
    rewrite <- E. clear E. induction samples as [|s rest IH]; [reflexivity|].
    cbn [mapM]. inversion H16; subst. rewrite IH by assumption.
    destruct (int_mul s scale) as [p| |]; cbn [bind]; reflexivity.
Qed.

(** On 16-bit buffers and a target peak of the contract, normalize returns. *)
Lemma normalize_returns samples target_peak :
  Forall in16 samples -> 0 < target_peak < 32768 ->
  exists out, normalize samples target_peak = Done out.
Proof.
  intros H16 HT.
  destruct samples as [|s rest].
  - exists []. apply normalize_empty.
    assert (2 ^ 15 <= 2 ^ 1023) by (apply Z.pow_le_mono_r; lia). lia.
  - destruct (Z.eq_dec (max_abs (s :: rest)) 0) as [E|E].
    + exists (s :: rest). apply normalize_silent; [discriminate | exact E].
    + destruct (normalize_nonsilent (s :: rest) target_peak) as (out & Eo & _);
        [discriminate | exact H16 | exact E | exact HT |].
      exists out. exact Eo.
Qed.

Lemma align_brr_range samples : Forall in16 samples -> Forall in16 (align_brr samples).
Proof.
  intros H16. unfold align_brr.
  destruct (negb (len samples mod 16 =? 0)); [|exact H16].
  apply Forall_app. split; [exact H16|].
  apply Forall_forall. intros x Hx. apply repeat_spec in Hx. subst x.
  unfold in16. lia.
Qed.

(** C8: every stage keeps the amplitude range.  For a buffer whose samples
    all lie in [-32768, 32767], the downmix, the resampler, the silence
    trimmer, the duration truncation, normalize and align_brr only produce
    samples in [-32768, 32767]; normalize does return for every target peak
    of its contract. *)
Theorem C8_stages_preserve_amplitude_range (samples : list Z) :
  Forall in16 samples ->
  (forall nch rate mono rate',
      read_wav_mono (Pcm nch rate samples) = Done (mono, rate') -> Forall in16 mono)
  /\ (forall fuel src_rate dst_rate out,
         downsample fuel samples src_rate dst_rate = Done out -> Forall in16 out)
  /\ (forall threshold, Forall in16 (trim_silence samples threshold))
  /\ (forall max_samples, Forall in16 (slice_to samples max_samples))
  /\ (forall target_peak out,
         normalize samples target_peak = Done out -> Forall in16 out)
  /\ (forall target_peak,
         0 < target_peak < 32768 -> exists out, normalize samples target_peak = Done out)
  /\ Forall in16 (align_brr samples).
Proof.
  intros H16.
  refine (conj _ (conj _ (conj _ (conj _ (conj _ (conj _ _)))))).
  - intros nch rate mono rate'. unfold read_wav_mono.
    destruct (downmix samples nch) as [m| |] eqn:E; cbn [bind]; try discriminate.
    intros Em. injection Em as <- _. eapply downmix_range; eassumption.
  - intros fuel src_rate dst_rate out. apply downsample_range. exact H16.
  - intros threshold. unfold trim_silence, slice_from.
    apply Forall_skipn_keep. exact H16.
  - intros max_samples. unfold slice_to. apply Forall_firstn_keep. exact H16.
  - intros target_peak out. apply normalize_range. exact H16.
  - intros target_peak. apply normalize_returns. exact H16.
  - apply align_brr_range. exact H16.
Qed.

Lemma C8_stages_preserve_amplitude_range_witness :
  Forall in16 [-1; 3; -8]
  /\ Forall in16 (trim_silence [100; -101; 3; 4; -7; -8] 800)
  /\ Forall in16 (align_brr [100; -101; 3; 4; -7; -8]).
Proof.
  assert (H : Forall in16 [100; -101; 3; 4; -7; -8])
    by (repeat constructor; unfold in16; lia).
  pose proof (C8_stages_preserve_amplitude_range [100; -101; 3; 4; -7; -8] H)
    as (Hmix & _ & Htrim & _ & _ & _ & Halign).
  split; [|split].
  - apply (Hmix 2 44100 [-1; 3; -8] 44100). reflexivity.
  - apply Htrim.
  - exact Halign.
Defined.

(** ** The batch loop and a source the decoder rejects *)

Section BatchFacts.

Variable source : string -> option container.
Variable snesbrr : container -> encoded.
Variable fuel : nat.






End BatchFacts.




(** ** The float model against the reference operations of [SpecFloat] *)

(** On divisions, products and sums of the kind the script performs, and on
    ties, subnormal results and overflow, the operations of [Float64]
    return what [SFdiv], [SFmul], [SFadd] and [binary_normalize] of the
    standard library return at precision 53 and exponent bound 1024. *)
Example float64_agrees_with_SpecFloat :
  let sdiv a b := SFdiv 53 1024 (spec_of_int a) (spec_of_int b) in
  (* int / int *)
  true_div 28000 49 = Done (of_spec (sdiv 28000 49))
  /\ true_div 44100 16000 = Done (of_spec (sdiv 44100 16000))
  /\ true_div 28000 32767 = Done (of_spec (sdiv 28000 32767))
  /\ true_div (-7) 3 = Done (of_spec (sdiv (-7) 3))
  /\ true_div 1 (2 ^ 1000) = Done (of_spec (sdiv 1 (2 ^ 1000)))
  (* int -> float: exact, ties to even, overflow *)
  /\ round64 ((2 ^ 53 + 1) * one) 1 = of_spec (spec_of_int (2 ^ 53 + 1))
  /\ round64 ((2 ^ 53 + 3) * one) 1 = of_spec (spec_of_int (2 ^ 53 + 3))
  /\ round64 ((2 ^ 1024 - 2 ^ 970) * one) 1 = of_spec (spec_of_int (2 ^ 1024 - 2 ^ 970))
  /\ round64 ((2 ^ 1024 - 2 ^ 970 - 1) * one) 1
     = of_spec (spec_of_int (2 ^ 1024 - 2 ^ 970 - 1))
  (* float * float, also with a subnormal result *)
  /\ mul (literal 49 1) (literal 1 49)
     = of_spec (SFmul 53 1024 (spec_of_int 49) (sdiv 1 49))
  /\ mul (literal 12345 1) (literal 28000 32767)
     = of_spec (SFmul 53 1024 (spec_of_int 12345) (sdiv 28000 32767))
  /\ mul (literal 1 (2 ^ 600)) (literal 3 (2 ^ 475))
     = of_spec (SFmul 53 1024 (sdiv 1 (2 ^ 600)) (sdiv 3 (2 ^ 475)))
  /\ mul (literal 12 100) (literal 16000 1)
     = of_spec (SFmul 53 1024 (sdiv 12 100) (spec_of_int 16000))
  (* float + float *)
  /\ add (literal 1 10) (literal 2 10)
     = of_spec (SFadd 53 1024 (sdiv 1 10) (sdiv 2 10))
  /\ add (literal (2 ^ 53) 1) (literal 1 1)
     = of_spec (SFadd 53 1024 (spec_of_int (2 ^ 53)) (spec_of_int 1))
  /\ add (literal 11025 4000) (literal 44100 16000)
     = of_spec (SFadd 53 1024 (sdiv 11025 4000) (sdiv 44100 16000)).
Proof. vm_compute. repeat split. Qed.

(** The duration clamps [int(max_dur * TARGET_RATE)] of the mapping table. *)
Example MAPPINGS_max_samples :
  map (fun e => rate <- of_int TARGET_RATE ;; to_int (mul (max_dur e) rate)) MAPPINGS
  = map Done [1920; 1920; 4000; 1920; 1600; 960; 640; 6400; 4000].
Proof. vm_compute. reflexivity. Qed.

(** ** write_wav and read_wav_mono on bytes *)

Lemma in16b_spec s : in16b s = true <-> in16 s.
Proof.
  unfold in16b, in16. rewrite andb_true_iff, !Z.leb_le. tauto.
Qed.

Lemma unpack_pack_h1 s :
  in16 s -> unpack_h1 ((s mod 65536) mod 256) ((s mod 65536) / 256) = s.
Proof.
  unfold in16, unpack_h1. intros H.
  pose proof (Z.div_mod (s mod 65536) 256 ltac:(lia)) as E.
  replace ((s mod 65536) mod 256 + 256 * ((s mod 65536) / 256)) with (s mod 65536) by lia.
  destruct (Z.ltb_spec (s mod 65536) 32768); Z.div_mod_to_equations; lia.
Qed.

Lemma pack_h1_bytes s b :
  pack_h1 s = Some b -> Forall is_byte b /\ len b = 2.
Proof.
  unfold pack_h1. destruct (in16b s); [|discriminate].
  intros E. injection E as <-. split; [|reflexivity].
  repeat constructor; unfold is_byte; Z.div_mod_to_equations; lia.
Qed.

Lemma pack_h_spec samples :
  Forall in16 samples ->
  exists raw, pack_h samples = Some raw
              /\ len raw = 2 * len samples
              /\ Forall is_byte raw
              /\ unpack_pairs raw = Some samples.
Proof.
  induction 1 as [|s rest Hs _ (raw & E & L & B & U)].
  - exists []. repeat split; constructor.
  - cbn [pack_h]. unfold pack_h1. apply in16b_spec in Hs as Hb. rewrite Hb, E.
    eexists. split; [reflexivity|]. cbn [app]. split; [|split].
    + rewrite !len_cons, L. lia.
    + repeat constructor; try exact B; unfold is_byte; Z.div_mod_to_equations; lia.
    + cbn [unpack_pairs]. rewrite U, unpack_pack_h1 by exact Hs. reflexivity.
Qed.

Lemma pack_h_fails samples :
  ~ Forall in16 samples -> pack_h samples = None.
Proof.
  induction samples as [|s rest IH]; intros H.
  - exfalso. apply H. constructor.
  - cbn [pack_h]. unfold pack_h1.
    destruct (in16b s) eqn:Hb; [|reflexivity].
    rewrite IH; [reflexivity|].
    intros Hrest. apply H. constructor; [apply in16b_spec; exact Hb | exact Hrest].
Qed.

(** A mono container is its own downmix. *)
Lemma downmix_mono samples : downmix samples 1 = Done samples.
Proof.
  assert (C : concat (map (fun s => [s]) samples) = samples).
  { induction samples as [|s rest IH]; cbn; [reflexivity | rewrite IH; reflexivity]. }
  rewrite <- C at 1.
  rewrite downmix_frames.
  - f_equal. rewrite map_map. rewrite <- (map_id samples) at 2.
    apply map_ext. intros s. unfold frame_total. cbn. apply Z.div_1_r.
  - lia.
  - apply Forall_forall. intros fr Hfr. apply in_map_iff in Hfr.
    destruct Hfr as (s & <- & _). reflexivity.
Qed.

Lemma firstn_len (xs : list Z) : firstn (Z.to_nat (len xs)) xs = xs.
Proof. unfold len. rewrite Nat2Z.id. apply firstn_all. Qed.

Lemma header_fits_spec (nsamples rate : Z) :
  header_fits nsamples rate = true
  <-> 36 + 2 * nsamples < 2 ^ 32 /\ 2 * rate < 2 ^ 32.
Proof.
  unfold header_fits. rewrite andb_true_iff, !Z.ltb_lt. reflexivity.
Qed.

Lemma forallb_in16b samples :
  Forall in16 samples -> forallb in16b samples = true.
Proof.
  intros H16. apply forallb_forall. intros s Hs. apply in16b_spec.
  rewrite Forall_forall in H16. apply H16. exact Hs.
Qed.

(** X1: what write_wav writes, read_wav_mono reads back.  For 16-bit
    samples, a positive rate below 2^31 and a data chunk that fits the
    32-bit size field of the header (36 + 2 * len(samples) < 2^32) the file
    is written (mono, two bytes per sample), and decoding it returns the
    same samples and the same rate. *)
Theorem X1_write_wav_read_wav_mono_round_trip (samples : list Z) (rate : Z) :
  Forall in16 samples ->
  0 < rate < 2 ^ 31 ->
  36 + 2 * len samples < 2 ^ 32 ->
  exists f,
    write_wav_file samples rate = Done f
    /\ len (data f) = 2 * len samples
    /\ read_wav_mono (open_wav f) = Done (samples, rate)
    /\ write_wav samples rate = Done (open_wav f).
Proof.
  intros H16 Hr Hsize.
  destruct (pack_h_spec samples H16) as (raw & E & L & B & U).
  assert (Hfit : header_fits (len samples) rate = true)
    by (apply header_fits_spec; lia).
  exists (mk_wav 1 2 rate raw).
  assert (O : open_wav (mk_wav 1 2 rate raw) = Pcm 1 rate samples).
  { unfold open_wav, getnframes, readframes. cbn [nchannels sampwidth framerate data].
    change ((1 <? 1) || (2 <? 1)) with false. cbv iota.
    assert (N : len raw / (1 * 2) = len samples)
      by (rewrite L; change (1 * 2) with 2; rewrite Z.mul_comm, Z.div_mul; lia).
    rewrite N.
    replace (len samples * (1 * 2)) with (len raw) by lia.
    rewrite firstn_len. unfold unpack_h.
    destruct (Z.eqb_spec (len raw) (2 * (len samples * 1))); [|lia].
    rewrite U. reflexivity. }
  split; [|split; [|split]].
  - unfold write_wav_file. destruct (Z.leb_spec rate 0); [lia|].
    rewrite E, Hfit. reflexivity.
  - exact L.
  - rewrite O. unfold read_wav_mono. rewrite downmix_mono. reflexivity.
  - rewrite O. unfold write_wav. destruct (Z.leb_spec rate 0); [lia|].
    rewrite (forallb_in16b samples H16), Hfit. reflexivity.
Qed.

Lemma X1_write_wav_read_wav_mono_round_trip_witness :
  exists f,
    write_wav_file [0; 1; -1; 32767; -32768; 258] 16000 = Done f
    /\ len (data f) = 2 * len [0; 1; -1; 32767; -32768; 258]
    /\ read_wav_mono (open_wav f) = Done ([0; 1; -1; 32767; -32768; 258], 16000)
    /\ write_wav [0; 1; -1; 32767; -32768; 258] 16000 = Done (open_wav f).
Proof.
  apply (X1_write_wav_read_wav_mono_round_trip [0; 1; -1; 32767; -32768; 258] 16000).
  - repeat constructor; unfold in16; lia.
  - lia.
  - cbn; lia.
Defined.

Lemma pack_unpack_h1 lo hi :
  is_byte lo -> is_byte hi ->
  in16 (unpack_h1 lo hi) /\ pack_h1 (unpack_h1 lo hi) = Some [lo; hi].
Proof.
  unfold is_byte. intros Hlo Hhi.
  assert (I : in16 (unpack_h1 lo hi)).
  { unfold in16, unpack_h1. destruct (Z.ltb_spec (lo + 256 * hi) 32768); lia. }
  split; [exact I|].
  unfold pack_h1. apply in16b_spec in I as Ib. rewrite Ib.
  assert (M : unpack_h1 lo hi mod 65536 = lo + 256 * hi).
  { unfold unpack_h1. destruct (Z.ltb_spec (lo + 256 * hi) 32768).
    - apply Z.mod_small. lia.
    - replace (lo + 256 * hi - 65536) with (lo + 256 * hi + (-1) * 65536) by lia.
      rewrite Z.mod_add by lia. apply Z.mod_small. lia. }
  rewrite M.
  assert (E1 : (lo + 256 * hi) mod 256 = lo) by (Z.div_mod_to_equations; lia).
  assert (E2 : (lo + 256 * hi) / 256 = hi) by (Z.div_mod_to_equations; lia).
  rewrite E1, E2. reflexivity.
Qed.

Lemma unpack_pairs_spec (n : nat) :
  forall raw,
    length raw = (2 * n)%nat -> Forall is_byte raw ->
    exists samples, unpack_pairs raw = Some samples
                    /\ length samples = n
                    /\ Forall in16 samples
                    /\ pack_h samples = Some raw.
Proof.
  induction n as [|n IH]; intros raw L B.
  - destruct raw; [|discriminate]. exists []. repeat split; constructor.
  - destruct raw as [|lo [|hi rest]]; try (cbn in L; lia).
    inversion B as [|? ? Hlo B1]; subst. inversion B1 as [|? ? Hhi B2]; subst.
    destruct (IH rest ltac:(cbn in L; lia) B2) as (samples & U & Ls & H16 & P).
    destruct (pack_unpack_h1 lo hi Hlo Hhi) as (I & Pk).
    exists (unpack_h1 lo hi :: samples). cbn [unpack_pairs]. rewrite U.
    split; [reflexivity|]. split; [cbn; lia|]. split; [constructor; assumption|].
    cbn [pack_h]. rewrite Pk, P. reflexivity.
Qed.

(** X2: decoding a mono 16-bit file and writing the samples again gives
    the same file: for a rate that is positive and below 2^31 and a data
    chunk of an even number of bytes that fits the 32-bit size field of the
    header (36 + len(raw) < 2^32), read_wav_mono returns 16-bit samples at
    the file's rate, and write_wav on them reproduces the data chunk byte
    for byte. *)
Theorem X2_read_wav_mono_write_wav_round_trip (rate : Z) (raw : list Z) :
  0 < rate < 2 ^ 31 ->
  Forall is_byte raw ->
  Z.even (len raw) = true ->
  36 + len raw < 2 ^ 32 ->
  exists samples,
    read_wav_mono (open_wav (mk_wav 1 2 rate raw)) = Done (samples, rate)
    /\ Forall in16 samples
    /\ write_wav_file samples rate = Done (mk_wav 1 2 rate raw).
Proof.
  intros Hr B Hev Hsize.
  apply Z.even_spec in Hev as (h & Hh).
  pose proof (len_nonneg raw) as Hl.
  destruct (unpack_pairs_spec (Z.to_nat h) raw) as (samples & U & Ls & H16 & P).
  { unfold len in Hh. lia. }
  { exact B. }
  assert (Lh : len samples = h) by (unfold len; lia).
  exists samples. split; [|split].
  - unfold open_wav, getnframes, readframes. cbn [nchannels sampwidth framerate data].
    change ((1 <? 1) || (2 <? 1)) with false. cbv iota.
    assert (N : len raw / (1 * 2) = h)
      by (rewrite Hh; change (1 * 2) with 2; rewrite Z.mul_comm, Z.div_mul; lia).
    rewrite N. replace (h * (1 * 2)) with (len raw) by lia.
    rewrite firstn_len. unfold unpack_h.
    destruct (Z.eqb_spec (len raw) (2 * (h * 1))); [|lia].
    rewrite U. cbv iota. unfold read_wav_mono. rewrite downmix_mono. reflexivity.
  - exact H16.
  - unfold write_wav_file. destruct (Z.leb_spec rate 0); [lia|]. rewrite P.
    assert (Hfit : header_fits (len samples) rate = true)
      by (apply header_fits_spec; lia).
    rewrite Hfit. reflexivity.
Qed.

Lemma X2_read_wav_mono_write_wav_round_trip_witness :
  exists samples,
    read_wav_mono (open_wav (mk_wav 1 2 16000 [0; 128; 255; 127; 1; 0; 255; 255]))
    = Done (samples, 16000)
    /\ Forall in16 samples
    /\ write_wav_file samples 16000 = Done (mk_wav 1 2 16000 [0; 128; 255; 127; 1; 0; 255; 255]).
Proof.
  apply (X2_read_wav_mono_write_wav_round_trip 16000 [0; 128; 255; 127; 1; 0; 255; 255]).
  - lia.
  - repeat constructor; unfold is_byte; lia.
  - reflexivity.
  - cbn; lia.
Defined.

(** X3: read_wav_mono only takes 16-bit files.  A file with at least one
    frame whose sample width is not two bytes makes struct.unpack fail, so
    the function raises instead of returning samples. *)
Theorem X3_read_wav_mono_rejects_other_sample_widths (w : wav_file) :
  1 <= nchannels w ->
  1 <= sampwidth w ->
  sampwidth w <> 2 ->
  1 <= getnframes w ->
  exists msg,
    open_wav w = Rejected msg
    /\ read_wav_mono (open_wav w) = Raised (WaveError msg).
Proof.
  intros Hc Hs Hw Hn.
  unfold open_wav.
  destruct (Z.ltb_spec (nchannels w) 1); [lia|].
  destruct (Z.ltb_spec (sampwidth w) 1); [lia|]. cbn [orb].
  assert (U : unpack_h (getnframes w * nchannels w) (readframes w (getnframes w)) = None).
  { unfold unpack_h, readframes.
    set (fs := nchannels w * sampwidth w) in *.
    assert (Hfs : 0 < fs) by (subst fs; nia).
    assert (Hle : getnframes w * fs <= len (data w)).
    { unfold getnframes. fold fs. rewrite Z.mul_comm. apply Z.mul_div_le. exact Hfs. }
    assert (L : len (firstn (Z.to_nat (getnframes w * fs)) (data w)) = getnframes w * fs).
    { unfold len in *. rewrite length_firstn. lia. }
    rewrite L. subst fs.
    destruct (Z.eqb_spec (getnframes w * (nchannels w * sampwidth w))
                         (2 * (getnframes w * nchannels w))); [|reflexivity].
    exfalso. assert (0 < getnframes w * nchannels w) by nia. nia. }
  rewrite U. eexists. split; reflexivity.
Qed.

Lemma X3_read_wav_mono_rejects_other_sample_widths_witness :
  exists msg,
    open_wav (mk_wav 1 1 8000 [128; 130; 127]) = Rejected msg
    /\ read_wav_mono (open_wav (mk_wav 1 1 8000 [128; 130; 127])) = Raised (WaveError msg).
Proof.
  apply (X3_read_wav_mono_rejects_other_sample_widths (mk_wav 1 1 8000 [128; 130; 127])).
  - cbn. lia.
  - cbn. lia.
  - cbn. lia.
  - vm_compute. discriminate.
Defined.

(** ** trim_silence on any buffer *)

Lemma split_first_loud samples threshold :
  Forall (quiet threshold) samples
  \/ exists q s post,
      samples = q ++ s :: post /\ Forall (quiet threshold) q /\ threshold < Z.abs s.
Proof.
  induction samples as [|x rest IH].
  - left. constructor.
  - destruct (Z.lt_ge_cases threshold (Z.abs x)) as [Hx|Hx].
    + right. exists [], x, rest. split; [reflexivity|]. split; [constructor | exact Hx].
    + destruct IH as [IH|(q & s & post & -> & Hq & Hs)].
      * left. constructor; [unfold quiet; lia | exact IH].
      * right. exists (x :: q), s, post. split; [reflexivity|].
        split; [constructor; [unfold quiet; lia | exact Hq] | exact Hs].
Qed.

Lemma trim_silence_quiet samples threshold :
  Forall (quiet threshold) samples -> trim_silence samples threshold = samples.
Proof.
  intros H. unfold trim_silence. rewrite first_loud_quiet by assumption.
  rewrite slice_from_inside by (pose proof (len_nonneg samples); lia).
  reflexivity.
Qed.

Lemma trim_silence_loud q s post threshold :
  Forall (quiet threshold) q -> threshold < Z.abs s ->
  trim_silence (q ++ s :: post) threshold
  = skipn (Z.to_nat (Z.max 0 (len q - 16))) q ++ s :: post.
Proof.
  intros Hq Hs. unfold trim_silence. rewrite first_loud_found by assumption.
  pose proof (len_nonneg q). pose proof (len_nonneg post).
  rewrite slice_from_inside by (rewrite len_app, len_cons; lia).
  cbn [Z.add]. rewrite skipn_app.
  replace (Z.to_nat (Z.max 0 (len q - 16)) - length q)%nat with 0%nat
    by (unfold len in *; lia).
  reflexivity.
Qed.

(** X4: trim_silence only ever removes quiet samples from the front: the
    input is a prefix of samples at or below the threshold followed by the
    output, so every sample louder than the threshold survives, in place. *)
Theorem X4_trim_silence_drops_a_quiet_prefix (samples : list Z) (threshold : Z) :
  exists pre,
    samples = pre ++ trim_silence samples threshold
    /\ Forall (quiet threshold) pre
    /\ (forall s, In s samples -> threshold < Z.abs s ->
                  In s (trim_silence samples threshold)).
Proof.
  assert (G : exists pre, samples = pre ++ trim_silence samples threshold
                          /\ Forall (quiet threshold) pre).
  { destruct (split_first_loud samples threshold) as [H|(q & s & post & -> & Hq & Hs)].
    - exists []. rewrite trim_silence_quiet by exact H. split; [reflexivity | constructor].
    - exists (firstn (Z.to_nat (Z.max 0 (len q - 16))) q).
      rewrite trim_silence_loud by assumption. split.
      + rewrite app_assoc, firstn_skipn. reflexivity.
      + apply Forall_firstn_keep. exact Hq. }
  destruct G as (pre & E & Hpre). exists pre. split; [exact E|]. split; [exact Hpre|].
  intros s Hin Hs. rewrite E in Hin. apply in_app_or in Hin as [Hin|Hin]; [|exact Hin].
  rewrite Forall_forall in Hpre. specialize (Hpre s Hin). unfold quiet in Hpre. lia.
Qed.

(** X5: trim_silence is idempotent: trimming an already trimmed buffer
    with the same threshold changes nothing (the 16-sample lead-in that was
    kept is not trimmed again). *)
Theorem X5_trim_silence_idempotent (samples : list Z) (threshold : Z) :
  trim_silence (trim_silence samples threshold) threshold
  = trim_silence samples threshold.
Proof.
  destruct (split_first_loud samples threshold) as [H|(q & s & post & -> & Hq & Hs)].
  - rewrite (trim_silence_quiet samples threshold H).
    apply trim_silence_quiet. exact H.
  - rewrite trim_silence_loud by assumption.
    set (lead := skipn (Z.to_nat (Z.max 0 (len q - 16))) q).
    assert (Hlead : Forall (quiet threshold) lead)
      by (apply Forall_skipn_keep; exact Hq).
    assert (Llead : len lead <= 16).
    { subst lead. unfold len. rewrite length_skipn. lia. }
    rewrite trim_silence_loud by assumption.
    replace (Z.to_nat (Z.max 0 (len lead - 16))) with 0%nat by lia.
    reflexivity.
Qed.

(** ** downsample: whole-number ratios, downsampling, frozen cursor *)

Lemma py_index_nth xs i :
  0 <= i < len xs -> py_index xs i = Done (nth (Z.to_nat i) xs 0).
Proof.
  intros H. unfold py_index.
  destruct (Z.ltb_spec i 0); [lia|].
  destruct (Z.leb_spec 0 i); [|lia].
  destruct (Z.ltb_spec i (len xs)); [|lia]. cbn [andb].
  destruct (nth_error xs (Z.to_nat i)) as [v|] eqn:E.
  - erewrite nth_error_nth by exact E. reflexivity.
  - apply nth_error_None in E. unfold len in H. lia.
Qed.

Lemma py_range_succ (j : nat) :
  py_range (Z.of_nat (S j)) = py_range (Z.of_nat j) ++ [Z.of_nat j].
Proof.
  rewrite !py_range_seq. rewrite seq_S, map_app. reflexivity.
Qed.

Lemma true_div_multiple k dst :
  0 < dst -> Z.abs k <= 2 ^ 53 -> true_div (k * dst) dst = Done (Finite (k * one)).
Proof.
  intros Hd Hk. unfold true_div.
  destruct (Z.eqb_spec dst 0); [lia|].
  destruct (Z.ltb_spec dst 0); [lia|].
  replace (k * dst * one) with (k * one * dst) by ring.
  rewrite round64_exact; [reflexivity | exact Hd | apply representable_int; exact Hk |].
  apply int_lt_top.
  assert (2 ^ 53 <= 2 ^ 1023) by (apply Z.pow_le_mono_r; lia). lia.
Qed.

(** With a whole ratio [k] the cursor visits 0, k, 2k, ... exactly. *)
Lemma downsample_loop_stride samples k (m : nat) :
  1 <= k -> len samples + k <= 2 ^ 53 ->
  forall (j fuel : nat),
    Z.of_nat j + Z.of_nat m = (len samples + k - 1) / k ->
    (m < fuel)%nat ->
    downsample_loop fuel samples (Finite (k * one)) (Finite (Z.of_nat j * k * one))
      (map (fun j => nth (Z.to_nat (j * k)) samples 0) (py_range (Z.of_nat j)))
    = Done (decimate samples k).
Proof.
  intros Hk Hlen. pose proof (len_nonneg samples) as L.
  induction m as [|m IH]; intros j fuel Hj Hfuel;
    (destruct fuel as [|fuel]; [lia|]);
    cbn [downsample_loop]; rewrite to_int_whole; cbn [bind].
  - assert (len samples <= Z.of_nat j * k).
    { rewrite Z.add_0_r in Hj.
      pose proof (Z.mul_succ_div_gt (len samples + k - 1) k ltac:(lia)).
      rewrite <- Hj in H. lia. }
    destruct (Z.ltb_spec (Z.of_nat j * k) (len samples)); [lia|].
    unfold decimate. rewrite <- Hj, Z.add_0_r. reflexivity.
  - assert (Z.of_nat j * k < len samples).
    { assert (Z.of_nat j + 1 <= (len samples + k - 1) / k) by lia.
      pose proof (Z.mul_div_le (len samples + k - 1) k ltac:(lia)). nia. }
    destruct (Z.ltb_spec (Z.of_nat j * k) (len samples)); [|lia].
    rewrite py_index_nth by lia. cbn [bind].
    replace (add (Finite (Z.of_nat j * k * one)) (Finite (k * one)))
      with (Finite (Z.of_nat (S j) * k * one)).
    + replace (map (fun j0 => nth (Z.to_nat (j0 * k)) samples 0) (py_range (Z.of_nat j))
               ++ [nth (Z.to_nat (Z.of_nat j * k)) samples 0])
        with (map (fun j0 => nth (Z.to_nat (j0 * k)) samples 0)
                  (py_range (Z.of_nat (S j))))
        by (rewrite py_range_succ, map_app; reflexivity).
      apply IH; lia.
    + cbn [add].
      replace (Z.of_nat j * k * one + k * one) with (Z.of_nat (S j) * k * one * 1)
        by (rewrite Nat2Z.inj_succ; ring).
      symmetry. apply round64_exact; [lia | apply representable_int; nia |].
      apply int_lt_top.
      assert (2 ^ 53 <= 2 ^ 1023) by (apply Z.pow_le_mono_r; lia). nia.
Qed.

(** X6: when the source rate is a whole multiple k of the destination rate,
    downsample keeps exactly the samples at indices 0, k, 2k, ...: the
    float cursor makes no rounding error on whole steps. *)
Theorem X6_downsample_whole_ratio_decimates
        (samples : list Z) (dst_rate k : Z) (fuel : nat) :
  0 < dst_rate ->
  1 <= k ->
  len samples + k <= 2 ^ 53 ->
  (length samples < fuel)%nat ->
  downsample fuel samples (k * dst_rate) dst_rate = Done (decimate samples k).
Proof.
  intros Hd Hk Hlen Hfuel. pose proof (len_nonneg samples) as L.
  unfold downsample. rewrite true_div_multiple by lia. cbn [bind].
  set (n := (len samples + k - 1) / k).
  assert (Hn0 : 0 <= n) by (subst n; apply Z.div_pos; lia).
  assert (Hn : n <= len samples).
  { assert ((len samples + k - 1) / k < len samples + 1); [|lia].
    apply Z.div_lt_upper_bound; [lia|]. nia. }
  apply (downsample_loop_stride samples k (Z.to_nat n) Hk Hlen 0 fuel).
  - fold n. lia.
  - unfold len in Hn. lia.
Qed.

Lemma X6_downsample_whole_ratio_decimates_witness :
  downsample 9 [10; 11; 12; 13; 14; 15; 16; 17] (3 * 16000) 16000
  = Done (decimate [10; 11; 12; 13; 14; 15; 16; 17] 3).
Proof.
  apply (X6_downsample_whole_ratio_decimates [10; 11; 12; 13; 14; 15; 16; 17] 16000 3 9).
  - lia.
  - lia.
  - vm_compute. discriminate.
  - cbn [length]. lia.
Defined.

Lemma subseq_refl xs : subseq xs xs.
Proof. induction xs; constructor; assumption. Qed.

Lemma subseq_nil_l ys : subseq [] ys.
Proof. induction ys; constructor; assumption. Qed.

Lemma subseq_app xs ys xs' ys' :
  subseq xs ys -> subseq xs' ys' -> subseq (xs ++ xs') (ys ++ ys').
Proof.
  intros H H'. induction H; cbn [app]; [exact H' | constructor; assumption
                                         | constructor; assumption].
Qed.

Lemma subseq_len xs ys : subseq xs ys -> len xs <= len ys.
Proof.
  induction 1; rewrite ?len_cons; lia.
Qed.

Lemma subseq_In xs ys x : subseq xs ys -> In x xs -> In x ys.
Proof.
  induction 1; cbn [In]; intros Hx; [tauto | right; auto |].
  destruct Hx as [->|Hx]; [left; reflexivity | right; auto].
Qed.

Lemma firstn_prefix (xs : list Z) (p q : nat) :
  (p <= q)%nat -> exists mid, firstn q xs = firstn p xs ++ mid.
Proof.
  intros H. exists (skipn p (firstn q xs)).
  rewrite <- (firstn_skipn p (firstn q xs)) at 1.
  rewrite firstn_firstn, Nat.min_l by exact H. reflexivity.
Qed.

Lemma firstn_snoc (xs : list Z) (n : nat) v :
  nth_error xs n = Some v -> firstn (S n) xs = firstn n xs ++ [v].
Proof.
  revert xs. induction n as [|n IH]; intros [|x xs] E;
    try (destruct n; discriminate); try discriminate.
  - cbn in E. injection E as ->. reflexivity.
  - cbn [nth_error] in E.
    rewrite (firstn_cons (S n)), (firstn_cons n), (IH xs E). reflexivity.
Qed.

Lemma py_index_nth_error xs i v :
  0 <= i -> py_index xs i = Done v -> nth_error xs (Z.to_nat i) = Some v.
Proof.
  intros Hi. unfold py_index.
  destruct (Z.ltb_spec i 0); [lia|].
  destruct ((0 <=? i) && (i <? len xs)); [|discriminate].
  destruct (nth_error xs (Z.to_nat i)) as [w|]; [|discriminate].
  intros E. injection E as <-. reflexivity.
Qed.

Lemma downsample_loop_not_finite samples ratio i out fuel res :
  (forall x, i <> Finite x) ->
  downsample_loop fuel samples ratio i out <> Done res.
Proof.
  intros H. destruct fuel as [|fuel]; cbn [downsample_loop]; [discriminate|].
  destruct i as [x|b|]; [exfalso; apply (H x); reflexivity | |]; discriminate.
Qed.

Lemma true_div_finite a b f : true_div a b = Done f -> exists x, f = Finite x.
Proof.
  unfold true_div. destruct (b =? 0); [discriminate|].
  destruct (if b <? 0 then round64 (- a * one) (- b) else round64 (a * one) b)
    as [x| |]; try discriminate.
  intros E. injection E as <-. exists x. reflexivity.
Qed.

(** With a ratio of at least 1.0 the cursor passes a new index at every
    step, so the picked samples follow each other in the input. *)
Lemma downsample_loop_subseq samples r fuel :
  one <= r -> len samples <= 2 ^ 53 ->
  forall x out res (p : nat),
    subseq out (firstn p samples) ->
    Z.of_nat p * one <= x ->
    downsample_loop fuel samples (Finite r) (Finite x) out = Done res ->
    subseq res samples.
Proof.
  intros Hr Hlen. pose proof one_pos as U.
  induction fuel as [|fuel IH]; intros x out res p Hsub Hx; cbn [downsample_loop];
    [discriminate|].
  cbn [to_int bind].
  assert (X0 : 0 <= x) by nia.
  rewrite Z.quot_div_nonneg by lia.
  assert (I0 : Z.of_nat p <= x / one) by (apply Z.div_le_lower_bound; lia).
  destruct (Z.ltb_spec (x / one) (len samples)) as [Hin|Hout].
  - destruct (py_index samples (x / one)) as [v| |] eqn:Ev; cbn [bind]; try discriminate.
    apply py_index_nth_error in Ev; [|lia].
    cbn [add]. unfold round64.
    destruct (Z.ltb_spec (Z.abs (round_ne (x + r) 1)) top) as [Hfin|Hinf].
    + apply (IH _ _ _ (S (Z.to_nat (x / one)))).
      * rewrite (firstn_snoc _ _ _ Ev).
        apply subseq_app; [|apply subseq_refl].
        destruct (firstn_prefix samples p (Z.to_nat (x / one)) ltac:(lia)) as (mid & ->).
        rewrite <- (app_nil_r out). apply subseq_app; [exact Hsub | apply subseq_nil_l].
      * rewrite Nat2Z.inj_succ, Z2Nat.id by lia.
        apply round_ne_lower; [lia | apply representable_int; lia |].
        pose proof (Z.mul_div_le x one U). lia.
    + intros E. exfalso. revert E. apply downsample_loop_not_finite. discriminate.
  - intros E. injection E as <-.
    rewrite <- (firstn_skipn p samples), <- (app_nil_r out).
    apply subseq_app; [exact Hsub | apply subseq_nil_l].
Qed.

(** X7: downsampling proper (source rate at least the destination rate)
    only leaves samples out: whatever downsample returns is a subsequence
    of the input, in the input's order and without repetition, so it is
    never longer than the input. *)
Theorem X7_downsample_returns_subsequence
        (samples : list Z) (src_rate dst_rate : Z) (fuel : nat) (out : list Z) :
  0 < dst_rate ->
  dst_rate <= src_rate ->
  len samples <= 2 ^ 53 ->
  downsample fuel samples src_rate dst_rate = Done out ->
  subseq out samples /\ len out <= len samples.
Proof.
  intros Hd Hs Hlen. unfold downsample.
  destruct (true_div src_rate dst_rate) as [ratio| |] eqn:Er; cbn [bind];
    try discriminate.
  destruct (true_div_finite _ _ _ Er) as (r & ->).
  intros E.
  assert (Hr : one <= r).
  { rewrite (true_div_pos_inv _ _ _ Hd Er).
    apply round_ne_lower; [exact Hd | apply representable_one |].
    pose proof one_pos. nia. }
  assert (S : subseq out samples).
  { apply (downsample_loop_subseq samples r fuel Hr Hlen 0 [] out 0%nat);
      [apply subseq_nil_l | lia | exact E]. }
  split; [exact S | apply subseq_len; exact S].
Qed.

Lemma X7_downsample_returns_subsequence_witness :
  subseq [1; 3; 6; 9] [1; 2; 3; 4; 5; 6; 7; 8; 9; 10]
  /\ len [1; 3; 6; 9] <= len [1; 2; 3; 4; 5; 6; 7; 8; 9; 10].
Proof.
  apply (X7_downsample_returns_subsequence
           [1; 2; 3; 4; 5; 6; 7; 8; 9; 10] 44100 16000 20 [1; 3; 6; 9]).
  - lia.
  - lia.
  - vm_compute. discriminate.
  - vm_compute. reflexivity.
Defined.

(** A ratio of 0.0 never moves the cursor off the first sample. *)
Lemma downsample_loop_frozen x rest fuel :
  forall out, downsample_loop fuel (x :: rest) (Finite 0) (Finite 0) out = OutOfFuel.
Proof.
  induction fuel as [|fuel IH]; intros out; [reflexivity|].
  cbn [downsample_loop].
  change (to_int (Finite 0)) with (Done (Z.quot 0 one)).
  rewrite Z.quot_0_l by (pose proof one_pos; lia). cbn [bind].
  pose proof (len_nonneg rest).
  destruct (Z.ltb_spec 0 (len (x :: rest))); [|rewrite len_cons in *; lia].
  rewrite py_index_head. cbn [bind].
  replace (add (Finite 0) (Finite 0)) with (Finite 0) by (vm_compute; reflexivity).
  apply IH.
Qed.

Lemma true_div_zero dst : dst <> 0 -> true_div 0 dst = Done (Finite 0).
Proof.
  intros H. unfold true_div.
  destruct (Z.eqb_spec dst 0); [contradiction|].
  assert (T : Z.abs 0 < top) by (pose proof (pow2_lt_top 0 ltac:(lia)); cbn; lia).
  destruct (Z.ltb_spec dst 0).
  - change (- 0 * one) with (0 * - dst).
    rewrite round64_exact; [reflexivity | lia | apply representable_0 | exact T].
  - change (0 * one) with (0 * dst).
    rewrite round64_exact; [reflexivity | lia | apply representable_0 | exact T].
Qed.

(** X8: a source rate of 0 freezes the cursor.  On a non-empty buffer
    downsample then never returns: it keeps appending the first sample,
    whatever the (non-zero) destination rate. *)
Theorem X8_downsample_zero_source_rate_never_returns
        (x : Z) (rest : list Z) (dst_rate : Z) (fuel : nat) :
  dst_rate <> 0 ->
  downsample fuel (x :: rest) 0 dst_rate = OutOfFuel.
Proof.
  intros H. unfold downsample. rewrite true_div_zero by exact H. cbn [bind].
  apply downsample_loop_frozen.
Qed.

Lemma X8_downsample_zero_source_rate_never_returns_witness :
  downsample 1000 [4; 5; 6] 0 16000 = OutOfFuel.
Proof.
  apply (X8_downsample_zero_source_rate_never_returns 4 [5; 6] 16000 1000). lia.
Defined.

(** ** Rounding is monotone; normalize keeps the shape of the wave *)

Lemma rhe_mono n n' d : 0 < d -> n <= n' -> round_half_even n d <= round_half_even n' d.
Proof.
  intros Hd Hn.
  pose proof (Z.div_le_mono n n' d Hd Hn) as Q.
  destruct (Z.eq_dec (n / d) (n' / d)) as [E|E].
  - unfold round_half_even. rewrite <- E.
    assert (R : n mod d <= n' mod d).
    { pose proof (Z.div_mod n d ltac:(lia)). pose proof (Z.div_mod n' d ltac:(lia)).
      rewrite <- E in *. lia. }
    destruct (Z.ltb_spec (2 * (n mod d)) d), (Z.ltb_spec (2 * (n' mod d)) d); try lia.
    + destruct (d <? 2 * (n' mod d)); [lia|]. destruct (Z.even (n / d)); lia.
    + destruct (Z.ltb_spec d (2 * (n mod d))), (Z.ltb_spec d (2 * (n' mod d))); try lia.
      destruct (Z.even (n / d)); lia.
  - pose proof (rhe_lower n' d Hd).
    assert (round_half_even n d <= n / d + 1); [|lia].
    unfold round_half_even.
    destruct (2 * (n mod d) <? d); [lia|].
    destruct (d <? 2 * (n mod d)); [lia|].
    destruct (Z.even (n / d)); lia.
Qed.

Lemma drop_mono n n' d : 0 < d -> 0 <= n <= n' -> drop n d <= drop n' d.
Proof.
  intros Hd Hn. unfold drop.
  pose proof (Z.div_le_mono n n' d Hd ltac:(lia)).
  pose proof (Z.log2_le_mono (n / d) (n' / d) H). lia.
Qed.

Lemma round_mag_mono n n' d :
  0 < d -> 0 <= n <= n' -> round_mag n d <= round_mag n' d.
Proof.
  intros Hd Hn.
  pose proof (drop_mono n n' d Hd Hn) as K.
  pose proof (drop_nonneg n d) as K0.
  destruct (Z.eq_dec (drop n d) (drop n' d)) as [E|E].
  - unfold round_mag. rewrite <- E.
    assert (P : 0 < 2 ^ drop n d) by (apply Z.pow_pos_nonneg; lia).
    apply Z.mul_le_mono_nonneg_r; [lia|].
    apply rhe_mono; [nia | lia].
  - apply Z.le_trans with (2 ^ (53 + drop n d)).
    + apply round_mag_upper; [exact Hd | lia | |].
      * rewrite <- (Z.mul_1_l (2 ^ _)). apply representable_mul_pow2; [cbn; lia | lia].
      * pose proof (quotient_below_binade n d Hd ltac:(lia)).
        pose proof (Z.mul_succ_div_gt n d Hd). nia.
    + apply Z.le_trans with (2 ^ (52 + drop n' d)).
      * apply Z.pow_le_mono_r; lia.
      * apply round_mag_lower; [exact Hd | lia | |].
        -- rewrite <- (Z.mul_1_l (2 ^ _)). apply representable_mul_pow2; [cbn; lia | lia].
        -- pose proof (drop_pos_large n' d ltac:(lia)).
           pose proof (Z.mul_div_le n' d Hd). nia.
Qed.

Lemma round_ne_mono n n' d : 0 < d -> n <= n' -> round_ne n d <= round_ne n' d.
Proof.
  intros Hd Hn. unfold round_ne.
  destruct (Z.ltb_spec n 0), (Z.ltb_spec n' 0); try lia.
  - pose proof (round_mag_mono (- n') (- n) d Hd ltac:(lia)). lia.
  - pose proof (round_mag_nonneg (- n) d Hd ltac:(lia)).
    pose proof (round_mag_nonneg n' d Hd ltac:(lia)). lia.
  - apply round_mag_mono; [exact Hd | lia].
Qed.

(** The function that normalize applies to each sample once the scale
    factor [sc] is known. *)
Lemma normalize_sample_value T P sc s :
  0 < T < 32768 -> 1 <= P <= 32768 ->
  (T * 2 ^ 38 / P) * 2 ^ 1036 <= sc <= (T * 2 ^ 38 / P + 1) * 2 ^ 1036 ->
  Z.abs s <= P ->
  (p <- int_mul s (Finite sc) ;; v <- to_int p ;; Done (clamp16 v))
  = Done (clamp16 (Z.quot (round_ne (s * one * sc) one) one)).
Proof.
  intros HT HP Hsc Hs.
  destruct (normalize_sample T P sc s HT HP Hsc Hs) as (v & E & _).
  revert E. unfold int_mul. rewrite of_int_exact by lia. cbn [bind mul].
  destruct (round64 (s * one * sc) one) as [y| |] eqn:Ey; cbn [to_int bind];
    try discriminate.
  apply round64_Finite_inv in Ey. rewrite Ey. reflexivity.
Qed.

Lemma mapM_map {A B : Type} (f : A -> outcome B) (g : A -> B) l :
  (forall x, In x l -> f x = Done (g x)) -> mapM f l = Done (map g l).
Proof.
  induction l as [|x l IH]; intros H; [reflexivity|].
  cbn [mapM map]. rewrite (H x (or_introl eq_refl)). cbn [bind].
  rewrite IH by (intros y Hy; apply H; right; exact Hy). reflexivity.
Qed.

Lemma clamp16_mono a b : a <= b -> clamp16 a <= clamp16 b.
Proof. unfold clamp16. lia. Qed.

(** X9: normalize keeps the shape of the wave.  On a 16-bit buffer and a
    target peak of the contract, the output is the input mapped through one
    non-decreasing function that fixes 0: silence stays silence, no sample
    changes sign, and a louder sample never becomes quieter than a softer
    one. *)
Theorem X9_normalize_is_monotone_map (samples : list Z) (target_peak : Z) :
  Forall in16 samples ->
  0 < target_peak < 32768 ->
  exists f : Z -> Z,
    (forall a b, a <= b -> f a <= f b)
    /\ f 0 = 0
    /\ normalize samples target_peak = Done (map f samples).
Proof.
  intros H16 HT.
  destruct samples as [|s0 rest].
  { exists (fun s => s). split; [auto|]. split; [reflexivity|].
    apply normalize_empty.
    assert (2 ^ 15 <= 2 ^ 1023) by (apply Z.pow_le_mono_r; lia). lia. }
  set (samples := s0 :: rest) in *.
  destruct (Z.eq_dec (max_abs samples) 0) as [E0|E0].
  { exists (fun s => s). split; [auto|]. split; [reflexivity|].
    rewrite map_id. apply normalize_silent; [discriminate | exact E0]. }
  assert (HP : 1 <= max_abs samples <= 32768).
  { pose proof (max_abs_nonneg samples). split; [lia|].
    apply max_abs_le; [lia|].
    apply Forall_forall. intros x Hx. apply in16_abs.
    rewrite Forall_forall in H16. apply H16. exact Hx. }
  destruct (normalize_scale target_peak (max_abs samples) HT HP) as (sc & Esc & Bsc).
  pose proof one_pos as U.
  assert (Hsc0 : 0 <= sc).
  { assert (0 <= target_peak * 2 ^ 38 / max_abs samples) by (apply Z.div_pos; lia).
    assert (0 < 2 ^ 1036) by (apply Z.pow_pos_nonneg; lia). nia. }
  exists (fun s => clamp16 (Z.quot (round_ne (s * one * sc) one) one)).
  split; [|split].
  - intros a b Hab. apply clamp16_mono. apply Z.quot_le_mono; [lia|].
    apply round_ne_mono; [lia|].
    replace (a * one * sc) with (a * (one * sc)) by ring.
    replace (b * one * sc) with (b * (one * sc)) by ring.
    apply Z.mul_le_mono_nonneg_r; nia.
  - change (0 * one * sc) with (0 * one).
    rewrite round_ne_exact by (try apply representable_0; lia).
    rewrite Z.quot_0_l by lia. reflexivity.
  - unfold normalize. rewrite peak_of_max_abs by discriminate.
    destruct (Z.eqb_spec (max_abs samples) 0); [contradiction|].
    rewrite Esc. cbn [bind].
    apply mapM_map. intros s Hs.
    apply (normalize_sample_value target_peak (max_abs samples) sc s HT HP); [lia|].
    apply max_abs_ge. exact Hs.
Qed.

Lemma X9_normalize_is_monotone_map_witness :
  exists f : Z -> Z,
    (forall a b, a <= b -> f a <= f b)
    /\ f 0 = 0
    /\ normalize [0; 5; -49; 12] 28000 = Done (map f [0; 5; -49; 12]).
Proof.
  apply (X9_normalize_is_monotone_map [0; 5; -49; 12] 28000).
  - repeat constructor; unfold in16; lia.
  - lia.
Defined.

(** ** The stages composed: what reaches the encoder *)

Lemma max_abs_zero samples : max_abs samples = 0 -> Forall (fun s => s = 0) samples.
Proof.
  intros H. apply Forall_forall. intros s Hs.
  pose proof (max_abs_ge samples s Hs). lia.
Qed.

(** Whatever normalize returns fits 16 bits, also on input that does not. *)
Lemma normalize_output_in16 samples target_peak out :
  normalize samples target_peak = Done out -> Forall in16 out.
Proof.
  unfold normalize. destruct (Z.eqb_spec (peak_of samples) 0) as [E|E].
  - intros D. injection D as <-.
    destruct samples as [|s rest]; [constructor|].
    rewrite peak_of_max_abs in E by discriminate.
    apply max_abs_zero in E. eapply Forall_impl; [|exact E].
    intros a ->. unfold in16. lia.
  - destruct (true_div target_peak (peak_of samples)) as [scale| |]; cbn [bind];
      try discriminate.
    intros D.
    apply (mapM_clamp_range (fun s => p <- int_mul s scale ;; to_int p) samples out).
    rewrite <- D. clear. induction samples as [|s rest IH]; [reflexivity|].
    cbn [mapM]. rewrite IH.
    destruct (int_mul s scale) as [p| |]; cbn [bind]; reflexivity.
Qed.

Lemma normalize_length samples target_peak out :
  normalize samples target_peak = Done out -> len out = len samples.
Proof.
  unfold normalize. destruct (peak_of samples =? 0).
  - intros D. injection D as <-. reflexivity.
  - destruct (true_div target_peak (peak_of samples)) as [scale| |]; cbn [bind];
      try discriminate.
    intros D. apply mapM_inv in D. apply Forall2_length_eq in D.
    unfold len. lia.
Qed.

Lemma align_brr_len samples :
  len (align_brr samples) mod 16 = 0
  /\ len samples <= len (align_brr samples) < len samples + 16.
Proof.
  unfold align_brr.
  pose proof (Z.mod_pos_bound (len samples) 16 ltac:(lia)) as B.
  pose proof (Z.div_mod (len samples) 16 ltac:(lia)) as D.
  destruct (Z.eqb_spec (len samples mod 16) 0) as [E|E]; cbn [negb].
  - split; [exact E | lia].
  - rewrite len_app, len_repeat, Z2Nat.id by lia. split; [|lia].
    replace (len samples + (16 - len samples mod 16))
      with ((len samples / 16 + 1) * 16) by lia.
    apply Z.mod_mul. lia.
Qed.

Lemma slice_to_len samples stop :
  0 <= stop -> len (slice_to samples stop) <= stop.
Proof.
  intros H. unfold slice_to, slice_bound.
  destruct (Z.ltb_spec stop 0); [lia|].
  unfold len. rewrite length_firstn. lia.
Qed.

Lemma write_wav_Done samples rate wav :
  write_wav samples rate = Done wav -> wav = Pcm 1 rate samples.
Proof.
  unfold write_wav. destruct (rate <=? 0); [discriminate|].
  destruct (forallb in16b samples); cbn [negb]; [|discriminate].
  destruct (header_fits (len samples) rate); cbn [negb]; [|discriminate].
  intros E. injection E as <-. reflexivity.
Qed.

(** X10: whatever the sample pipeline of main hands to the encoder is a
    mono container at 16000 Hz whose samples fit 16 bits, whose length is a
    multiple of the 16-sample block, and which is shorter than the duration
    cap int(max_dur * 16000) plus one block. *)
Theorem X10_convert_samples_output_shape
        (fuel : nat) (file : container) (dur : float) (wav : container) :
  convert_samples fuel file dur = Done wav ->
  exists samples,
    wav = Pcm 1 TARGET_RATE samples
    /\ Forall in16 samples
    /\ len samples mod 16 = 0
    /\ (forall cap,
          (rate <- of_int TARGET_RATE ;; to_int (mul dur rate)) = Done cap ->
          0 <= cap -> len samples < cap + 16).
Proof.
  unfold convert_samples.
  destruct (read_wav_mono file) as [[mono src_rate]| |]; cbn [bind];
    [| discriminate | discriminate].
  destruct (downsample fuel mono src_rate TARGET_RATE) as [resampled| |]; cbn [bind];
    [| discriminate | discriminate].
  destruct (of_int TARGET_RATE) as [rate| |]; cbn [bind];
    [| discriminate | discriminate].
  destruct (to_int (mul dur rate)) as [max_samples| |]; cbn [bind];
    [| discriminate | discriminate].
  destruct (normalize _ 28000) as [normalized| |] eqn:En; cbn [bind];
    [| discriminate | discriminate].
  intros W. apply write_wav_Done in W. subst wav.
  exists (align_brr normalized).
  pose proof (normalize_output_in16 _ _ _ En) as H16.
  pose proof (normalize_length _ _ _ En) as L.
  destruct (align_brr_len normalized) as (M & B).
  split; [reflexivity|]. split; [apply align_brr_range; exact H16|].
  split; [exact M|].
  intros cap Ecap Hcap. injection Ecap as <-.
  pose proof (slice_to_len (trim_silence resampled SILENCE_THRESHOLD) max_samples Hcap).
  lia.
Qed.

Lemma X10_convert_samples_output_shape_witness :
  exists samples,
    Pcm 1 16000 [28000; 140; 0; 0; 0; 0; 0; 0; 0; 0; 0; 0; 0; 0; 0; 0]
    = Pcm 1 TARGET_RATE samples
    /\ Forall in16 samples
    /\ len samples mod 16 = 0
    /\ (forall cap,
          (rate <- of_int TARGET_RATE ;; to_int (mul (literal 12 100) rate)) = Done cap ->
          0 <= cap -> len samples < cap + 16).
Proof.
  apply (X10_convert_samples_output_shape
           100 (Pcm 2 32000 [1000; 1000; -2000; -2000; 5; 6; 7; 8]) (literal 12 100)).
  vm_compute. reflexivity.
Defined.

(** X11: after normalize the samples never stop the intermediate WAV from
    being written.  Whatever buffer normalize returns, padding it with
    align_brr and packing it as 16-bit samples does not fail; with a rate
    that is positive and below 2^31 and an input short enough for the
    32-bit size field of the header (36 + 2 * (len(samples) + 15) < 2^32)
    write_wav returns, and the data chunk is a whole number of 32-byte
    blocks. *)
Theorem X11_write_wav_after_normalize_succeeds
        (samples : list Z) (target_peak rate : Z) (normalized : list Z) :
  normalize samples target_peak = Done normalized ->
  0 < rate < 2 ^ 31 ->
  36 + 2 * (len samples + 15) < 2 ^ 32 ->
  write_wav (align_brr normalized) rate = Done (Pcm 1 rate (align_brr normalized))
  /\ exists f,
      write_wav_file (align_brr normalized) rate = Done f
      /\ len (data f) mod 32 = 0.
Proof.
  intros En Hr Hsize.
  pose proof (align_brr_range _ (normalize_output_in16 _ _ _ En)) as H16.
  pose proof (normalize_length _ _ _ En) as Ln.
  destruct (align_brr_len normalized) as (M & B).
  assert (Hfit : header_fits (len (align_brr normalized)) rate = true)
    by (apply header_fits_spec; lia).
  split.
  - unfold write_wav. destruct (Z.leb_spec rate 0); [lia|].
    rewrite (forallb_in16b _ H16), Hfit. reflexivity.
  - destruct (pack_h_spec _ H16) as (raw & E & L & _).
    exists (mk_wav 1 2 rate raw). split.
    + unfold write_wav_file. destruct (Z.leb_spec rate 0); [lia|].
      rewrite E, Hfit. reflexivity.
    + cbn [data]. rewrite L. Z.div_mod_to_equations. lia.
Qed.

Lemma X11_write_wav_after_normalize_succeeds_witness :
  write_wav (align_brr [0; 2857; -28000]) 16000
  = Done (Pcm 1 16000 (align_brr [0; 2857; -28000]))
  /\ exists f,
      write_wav_file (align_brr [0; 2857; -28000]) 16000 = Done f
      /\ len (data f) mod 32 = 0.
Proof.
  apply (X11_write_wav_after_normalize_succeeds [0; 5; -49] 28000 16000 [0; 2857; -28000]).
  - vm_compute. reflexivity.
  - lia.
  - cbn; lia.
Defined.

(** ** The counters of main *)

Section BatchCounters.

Variable source : string -> option container.
Variable snesbrr : container -> encoded.
Variable fuel : nat.

Lemma brr_sizes_app evs evs' : brr_sizes (evs ++ evs') = brr_sizes evs ++ brr_sizes evs'.
Proof.
  induction evs as [|e evs IH]; [reflexivity|].
  destruct e; cbn [app brr_sizes]; rewrite IH; reflexivity.
Qed.

Lemma started_app evs evs' : started (evs ++ evs') = started evs + started evs'.
Proof.
  induction evs as [|e evs IH]; [reflexivity|].
  destruct e; cbn [app started]; rewrite IH; lia.
Qed.

Lemma convert_to_brr_events wav evs0 r :
  convert_to_brr snesbrr wav = (evs0, r) -> brr_sizes evs0 = [] /\ started evs0 = 0.
Proof.
  unfold convert_to_brr. destruct (snesbrr wav); intros E; injection E as <- <-;
    split; reflexivity.
Qed.

Lemma main_loop_counters table :
  forall acc evs s,
    main_loop source snesbrr fuel table acc = (evs, Done s) ->
    success s = success acc + len (brr_sizes evs)
    /\ total_brr_size s = total_brr_size acc + total (brr_sizes evs)
    /\ started evs = Z.of_nat (length table)
    /\ len (brr_sizes evs) <= Z.of_nat (length table).
Proof.
  induction table as [|e table IH]; intros acc evs s; cbn [main_loop].
  - intros E. injection E as <- <-. cbn. lia.
  - destruct (source (src_name e)) as [file|].
    + destruct (convert_samples fuel file (max_dur e)) as [wav| |];
        [| discriminate | discriminate].
      destruct (convert_to_brr snesbrr wav) as [evs0 [[|]| |]] eqn:Eb;
        [| | discriminate | discriminate];
        destruct (convert_to_brr_events _ _ _ Eb) as (B0 & S0);
        [destruct (getsize snesbrr wav) as [size| |]; [| discriminate | discriminate] |];
        destruct (main_loop source snesbrr fuel table _) as [evs1 r1] eqn:E1;
        intros E; injection E as <- ->;
        destruct (IH _ _ _ E1) as (H1 & H2 & H3 & H4);
        cbn [brr_sizes started]; rewrite brr_sizes_app, started_app, B0, S0;
        cbn [app brr_sizes started success total_brr_size length total fold_right] in *;
        rewrite ?len_cons; fold (total (brr_sizes evs1)); lia.
    + destruct (main_loop source snesbrr fuel table acc) as [evs1 r1] eqn:E1.
      intros E. injection E as <- ->.
      destruct (IH _ _ _ E1) as (H1 & H2 & H3 & H4).
      cbn [brr_sizes started length]. lia.
Qed.

End BatchCounters.

(** X12: the summary of main tells the truth about the run.  When main
    reaches its summary, the success count is the number of BRR files
    reported, the total size is the sum of their sizes, every entry of the
    table was started exactly once, and the success count lies between 0
    and the number of entries. *)
Theorem X12_main_summary_matches_events
        (source : string -> option container) (snesbrr : container -> encoded)
        (fuel : nat) (table : list entry) (evs : list event) (s : summary) :
  main source snesbrr fuel table = (evs, Done s) ->
  success s = len (brr_sizes evs)
  /\ total_brr_size s = total (brr_sizes evs)
  /\ started evs = Z.of_nat (length table)
  /\ 0 <= success s <= Z.of_nat (length table).
Proof.
  unfold main. intros E.
  destruct (main_loop_counters source snesbrr fuel table _ _ _ E) as (H1 & H2 & H3 & H4).
  cbn [success total_brr_size] in H1, H2.
  pose proof (len_nonneg (brr_sizes evs)).
  split; [lia|]. split; [lia|]. split; [exact H3 | lia].
Qed.

Lemma X12_main_summary_matches_events_witness :
  success (mk_summary 1 9)
  = len (brr_sizes [Converting "beep.wav" "beep"; BrrOutput "beep" 9])
  /\ total_brr_size (mk_summary 1 9)
     = total (brr_sizes [Converting "beep.wav" "beep"; BrrOutput "beep" 9])
  /\ started [Converting "beep.wav" "beep"; BrrOutput "beep" 9]
     = Z.of_nat (length (tl demo_table))
  /\ 0 <= success (mk_summary 1 9) <= Z.of_nat (length (tl demo_table)).
Proof.
  apply (X12_main_summary_matches_events demo_source demo_encoder 100 (tl demo_table)).
  vm_compute. reflexivity.
Defined.



(** ** Where an exception of main comes from *)




(** ** The downmix stays between the channels *)

Lemma fold_left_add_between lo hi frame :
  Forall (fun s => lo <= s <= hi) frame ->
  forall acc,
    acc + lo * len frame <= fold_left Z.add frame acc <= acc + hi * len frame.
Proof.
  induction 1 as [|s rest Hs _ IH]; intros acc; cbn [fold_left].
  - unfold len. cbn. lia.
  - specialize (IH (acc + s)). rewrite len_cons. lia.
Qed.

(** X15: the downmix never leaves the span of the channels.  For every
    frame, the mono sample lies between the smallest and the largest
    channel amplitude of that frame, and there is exactly one mono sample
    per frame. *)
Theorem X15_downmix_between_channels
        (frames : list (list Z)) (nch rate : Z) :
  0 < nch ->
  Forall (fun fr => len fr = nch) frames ->
  exists mono,
    read_wav_mono (Pcm nch rate (concat frames)) = Done (mono, rate)
    /\ Forall2 (fun fr m => forall lo hi,
                    Forall (fun s => lo <= s <= hi) fr -> lo <= m <= hi)
               frames mono.
Proof.
  intros Hn H.
  exists (map (fun fr => frame_total fr / nch) frames). split.
  - unfold read_wav_mono. rewrite downmix_frames by assumption. reflexivity.
  - induction H as [|fr rest Hfr _ IH]; cbn [map]; constructor; [|exact IH].
    intros lo hi Hb. unfold frame_total.
    pose proof (fold_left_add_between lo hi fr Hb 0) as B. rewrite Hfr in B.
    split.
    + apply Z.div_le_lower_bound; lia.
    + apply Z.div_le_upper_bound; lia.
Qed.

Lemma X15_downmix_between_channels_witness :
  exists mono,
    read_wav_mono (Pcm 2 44100 (concat [[100; -101]; [3; 4]; [-7; -8]])) = Done (mono, 44100)
    /\ Forall2 (fun fr m => forall lo hi,
                    Forall (fun s => lo <= s <= hi) fr -> lo <= m <= hi)
               [[100; -101]; [3; 4]; [-7; -8]] mono.
Proof.
  apply (X15_downmix_between_channels [[100; -101]; [3; 4]; [-7; -8]] 2 44100).
  - lia.
  - repeat constructor.
Defined.

(** ** An empty recording *)

Lemma downmix_empty nch : 0 < nch -> downmix [] nch = Done [].
Proof.
  intros H. unfold downmix, py_range_step.
  destruct (Z.eqb_spec nch 0); [lia|].
  destruct (Z.ltb_spec 0 nch); [|lia]. reflexivity.
Qed.

Lemma downsample_empty fuel src_rate dst_rate ratio :
  true_div src_rate dst_rate = Done ratio ->
  downsample (S fuel) [] src_rate dst_rate = Done [].
Proof.
  intros E. unfold downsample. rewrite E. cbn [bind].
  destruct (true_div_finite _ _ _ E) as (r & ->).
  cbn [downsample_loop].
  change (to_int (Finite 0)) with (Done (Z.quot 0 one)).
  rewrite Z.quot_0_l by (pose proof one_pos; lia). reflexivity.
Qed.

(** X16: a recording without frames goes through the whole pipeline: for
    any channel count and any positive frame rate the header can hold, and
    any duration cap, the result is the empty 16 kHz mono WAV and no stage
    raises. *)
Theorem X16_convert_samples_empty_recording
        (fuel : nat) (nch rate : Z) (dur : float) (cap : Z) :
  0 < nch ->
  0 < rate < 2 ^ 32 ->
  to_int (mul dur (Finite (TARGET_RATE * one))) = Done cap ->
  convert_samples (S fuel) (Pcm nch rate []) dur = Done (Pcm 1 TARGET_RATE []).
Proof.
  intros Hn Hr Hcap. unfold convert_samples, read_wav_mono.
  rewrite downmix_empty by exact Hn. cbn [bind].
  pose proof one_pos as U.
  assert (P32 : 2 ^ 32 = 4294967296) by reflexivity.
  destruct (true_div_between rate TARGET_RATE 0 (rate * one)) as (r & Er & _).
  - reflexivity.
  - apply representable_0.
  - apply representable_int. assert (2 ^ 32 <= 2 ^ 53) by (apply Z.pow_le_mono_r; lia). lia.
  - unfold TARGET_RATE. nia.
  - pose proof (pow2_lt_top 0 ltac:(lia)). lia.
  - assert (Z.abs (rate * one) < top); [|lia].
    apply int_lt_top. assert (2 ^ 32 <= 2 ^ 1023) by (apply Z.pow_le_mono_r; lia). lia.
  - rewrite (downsample_empty fuel rate TARGET_RATE _ Er). cbn [bind].
    rewrite of_int_exact by (unfold TARGET_RATE; cbn; lia). cbn [bind].
    rewrite Hcap. cbn [bind].
    change (trim_silence [] SILENCE_THRESHOLD) with (@nil Z).
    replace (slice_to [] cap) with (@nil Z)
      by (unfold slice_to; rewrite firstn_nil; reflexivity).
    rewrite normalize_empty
      by (assert (2 ^ 15 <= 2 ^ 1023) by (apply Z.pow_le_mono_r; lia); lia).
    reflexivity.
Qed.

Lemma X16_convert_samples_empty_recording_witness :
  convert_samples 1 (Pcm 2 44100 []) (literal 12 100) = Done (Pcm 1 TARGET_RATE []).
Proof.
  apply (X16_convert_samples_empty_recording 0 2 44100 (literal 12 100) 1920).
  - lia.
  - split; [lia|]. vm_compute. reflexivity.
  - vm_compute. reflexivity.
Defined.

(** ** convert_sprite: palette and pixels *)

Lemma firstn_add_skipn {A : Type} (a b : nat) (l : list A) :
  firstn (a + b) l = firstn a l ++ firstn b (skipn a l).
Proof.
  rewrite <- (firstn_skipn a (firstn (a + b) l)) at 1.
  rewrite firstn_firstn, Nat.min_l by lia.
  rewrite firstn_skipn_comm. reflexivity.
Qed.

Lemma py_slice_length xs i :
  0 <= i -> len (Sprite.py_slice xs (i * 3) (i * 3 + 3)) <= 3.
Proof.
  intros H. unfold Sprite.py_slice, slice_bound.
  destruct (Z.ltb_spec (i * 3) 0); [lia|].
  destruct (Z.ltb_spec (i * 3 + 3) 0); [lia|].
  unfold len. rewrite length_firstn. lia.
Qed.

Lemma py_slice_inside xs i :
  0 <= i -> i * 3 + 3 <= len xs ->
  Sprite.py_slice xs (i * 3) (i * 3 + 3) = firstn 3 (skipn (Z.to_nat (i * 3)) xs).
Proof.
  intros H Hl. unfold Sprite.py_slice, slice_bound.
  destruct (Z.ltb_spec (i * 3) 0); [lia|].
  destruct (Z.ltb_spec (i * 3 + 3) 0); [lia|].
  rewrite !Z.min_l by lia.
  replace (Z.to_nat (i * 3 + 3 - i * 3)) with 3%nat by lia. reflexivity.
Qed.

(** The [for] loop of the palette after [j] colours. *)
Lemma palette_loop_length qp (j : nat) :
  exists tl,
    fold_left (fun pal i => pal ++ Sprite.py_slice qp (i * 3) (i * 3 + 3))
              (py_range (Z.of_nat j)) [0; 0; 0] = [0; 0; 0] ++ tl
    /\ len tl <= 3 * Z.of_nat j.
Proof.
  induction j as [|j (tl & E & L)].
  - exists []. split; [reflexivity | cbn; lia].
  - rewrite py_range_succ, fold_left_app. cbn [fold_left]. rewrite E.
    exists (tl ++ Sprite.py_slice qp (Z.of_nat j * 3) (Z.of_nat j * 3 + 3)).
    split; [rewrite <- app_assoc; reflexivity|].
    pose proof (py_slice_length qp (Z.of_nat j) ltac:(lia)).
    rewrite len_app. lia.
Qed.

Lemma palette_loop_exact qp (j : nat) :
  3 * Z.of_nat j <= len qp ->
  fold_left (fun pal i => pal ++ Sprite.py_slice qp (i * 3) (i * 3 + 3))
            (py_range (Z.of_nat j)) [0; 0; 0]
  = [0; 0; 0] ++ firstn (3 * j) qp.
Proof.
  induction j as [|j IH]; intros H.
  - reflexivity.
  - rewrite py_range_succ, fold_left_app. cbn [fold_left].
    rewrite IH by lia. rewrite py_slice_inside by lia.
    rewrite <- app_assoc.
    replace (Z.to_nat (Z.of_nat j * 3)) with (3 * j)%nat by lia.
    replace (3 * S j)%nat with (3 * j + 3)%nat by lia.
    rewrite firstn_add_skipn. reflexivity.
Qed.

(** X17: the palette that convert_sprite installs always has 768 entries
    and starts with black for index 0; when the quantizer's palette holds
    three entries for each of the max_colors colours, colour q of the
    quantizer is colour q + 1 of the new palette, channel by channel, and
    all further entries are 0. *)
Theorem X17_sprite_palette_layout (quant_palette : list Z) (max_colors : Z) :
  1 <= max_colors <= 15 ->
  len (Sprite.new_palette quant_palette max_colors) = 768
  /\ firstn 3 (Sprite.new_palette quant_palette max_colors) = [0; 0; 0]
  /\ (3 * max_colors <= len quant_palette ->
      Sprite.new_palette quant_palette max_colors
      = [0; 0; 0] ++ firstn (Z.to_nat (3 * max_colors)) quant_palette
          ++ repeat 0 (Z.to_nat (765 - 3 * max_colors))
      /\ forall q j, 0 <= q < max_colors -> 0 <= j < 3 ->
           nth (Z.to_nat (3 * (q + 1) + j)) (Sprite.new_palette quant_palette max_colors) 0
           = nth (Z.to_nat (3 * q + j)) quant_palette 0).
Proof.
  intros Hm. unfold Sprite.new_palette.
  assert (En : max_colors = Z.of_nat (Z.to_nat max_colors)) by lia.
  revert Hm. rewrite En. generalize (Z.to_nat max_colors). clear En max_colors.
  intros n Hm.
  set (loop := fold_left (fun pal i => pal ++ Sprite.py_slice quant_palette (i * 3) (i * 3 + 3))
                         (py_range (Z.of_nat n)) [0; 0; 0]).
  destruct (palette_loop_length quant_palette n) as (tl & E & L). fold loop in E.
  split; [|split].
  - rewrite E. pose proof (len_nonneg tl).
    rewrite len_app, len_repeat, len_app.
    change (len [0; 0; 0]) with 3. lia.
  - rewrite E. reflexivity.
  - intros Hq.
    assert (X : loop = [0; 0; 0] ++ firstn (Z.to_nat (3 * Z.of_nat n)) quant_palette).
    { subst loop. rewrite palette_loop_exact by lia. do 2 f_equal. lia. }
    rewrite X.
    assert (Lf : len (firstn (Z.to_nat (3 * Z.of_nat n)) quant_palette) = 3 * Z.of_nat n).
    { unfold len in *. rewrite length_firstn. lia. }
    assert (F : ([0; 0; 0] ++ firstn (Z.to_nat (3 * Z.of_nat n)) quant_palette)
                  ++ repeat 0 (Z.to_nat (768 - len ([0; 0; 0]
                                 ++ firstn (Z.to_nat (3 * Z.of_nat n)) quant_palette)))
                = [0; 0; 0] ++ firstn (Z.to_nat (3 * Z.of_nat n)) quant_palette
                    ++ repeat 0 (Z.to_nat (765 - 3 * Z.of_nat n))).
    { rewrite <- app_assoc. do 3 f_equal. rewrite len_app, Lf.
      change (len [0; 0; 0]) with 3. lia. }
    split; [exact F|].
    intros q j Hq0 Hj. rewrite F.
    replace (Z.to_nat (3 * (q + 1) + j)) with (3 + Z.to_nat (3 * q + j))%nat by lia.
    change ([0; 0; 0] ++ ?l) with (0 :: 0 :: 0 :: l). cbn [Nat.add nth].
    rewrite app_nth1 by (unfold len in Lf; lia).
    rewrite <- (firstn_skipn (Z.to_nat (3 * Z.of_nat n)) quant_palette) at 2.
    rewrite app_nth1 by (unfold len in Lf; lia). reflexivity.
Qed.

Lemma X17_sprite_palette_layout_witness :
  len (Sprite.new_palette [10; 20; 30; 40; 50; 60; 70; 80; 90] 2) = 768
  /\ nth (Z.to_nat (3 * (1 + 1) + 2))
         (Sprite.new_palette [10; 20; 30; 40; 50; 60; 70; 80; 90] 2) 0
     = nth (Z.to_nat (3 * 1 + 2)) [10; 20; 30; 40; 50; 60; 70; 80; 90] 0.
Proof.
  pose proof (X17_sprite_palette_layout [10; 20; 30; 40; 50; 60; 70; 80; 90] 2 ltac:(lia))
    as (H1 & _ & H3).
  split; [exact H1|].
  destruct (H3 ltac:(cbn; lia)) as (_ & H4). apply H4; lia.
Defined.

(** The pixel loop, started anywhere in the image. *)
Lemma out_data_from (alpha_all qd_all : list Z) :
  forall alpha qd seen_a seen_q,
    alpha_all = seen_a ++ alpha ->
    qd_all = seen_q ++ qd ->
    length seen_a = length seen_q ->
    length alpha = length qd ->
    mapM (fun i =>
            match nth_error (Sprite.transparent_mask alpha_all) (Z.to_nat i) with
            | Some true => Done 0
            | Some false => q <- py_index qd_all i ;; Done (q + 1)
            | None => Raised IndexError
            end)
         (map Z.of_nat (seq (length seen_q) (length qd)))
    = Done (map (fun aq => if fst aq <? 128 then 0 else snd aq + 1) (combine alpha qd)).
Proof.
  induction alpha as [|a alpha IH]; intros [|q qd] seen_a seen_q Ea Eq Hseen Hlen;
    try discriminate; [reflexivity|].
  cbn [length seq map mapM combine fst snd].
  assert (T := IH qd (seen_a ++ [a]) (seen_q ++ [q])).
  rewrite !length_app in T. cbn [length] in T. rewrite !Nat.add_1_r in T.
  rewrite <- !app_assoc in T. cbn [app] in T.
  specialize (T Ea Eq ltac:(lia) ltac:(cbn in Hlen; lia)).
  rewrite T. clear T IH.
  rewrite Nat2Z.id. unfold Sprite.transparent_mask.
  rewrite nth_error_map, Ea, <- Hseen, nth_error_app2, Nat.sub_diag by lia.
  cbn [nth_error option_map].
  destruct (a <? 128).
  - reflexivity.
  - replace (Z.of_nat (length seen_a)) with (len seen_q) by (unfold len; lia).
    rewrite Eq, py_index_app_mid. reflexivity.
Qed.

(** X18: the pixels convert_sprite writes.  For an alpha channel and
    quantizer indices of the same image, with indices below max_colors,
    the function saves one pixel per input pixel: index 0 exactly for the
    pixels whose alpha is below 128, and the quantizer's index plus one,
    between 1 and max_colors (at most 15), for the others. *)
Theorem X18_sprite_pixels_keep_index_zero_for_transparency
        (alpha_data quant_data quant_palette : list Z) (max_colors : Z) :
  1 <= max_colors <= 15 ->
  length alpha_data = length quant_data ->
  Forall (fun q => 0 <= q < max_colors) quant_data ->
  exists pixels,
    Sprite.convert_sprite alpha_data quant_data quant_palette max_colors
    = Sprite.Run (Done (Sprite.new_palette quant_palette max_colors, pixels))
    /\ Forall2 (fun a p => (a < 128 <-> p = 0) /\ 0 <= p <= max_colors) alpha_data pixels
    /\ Forall2 (fun q p => p = 0 \/ p = q + 1) quant_data pixels.
Proof.
  intros Hm Hlen Hq.
  exists (map (fun aq => if fst aq <? 128 then 0 else snd aq + 1)
              (combine alpha_data quant_data)).
  split; [|split].
  - unfold Sprite.convert_sprite.
    destruct (Z.ltb_spec max_colors 1); [lia|].
    destruct (Z.ltb_spec 15 max_colors); [lia|]. cbn [orb].
    unfold Sprite.out_data. change (len quant_data) with (Z.of_nat (length quant_data)).
    rewrite py_range_seq.
    pose proof (out_data_from alpha_data quant_data alpha_data quant_data [] []
                              eq_refl eq_refl eq_refl Hlen) as T.
    change (length (@nil Z)) with 0%nat in T. rewrite T. reflexivity.
  - revert quant_data Hlen Hq.
    induction alpha_data as [|a alpha IH]; intros [|q qd] Hlen Hq; try discriminate;
      cbn [combine map fst snd]; constructor.
    + inversion Hq; subst. destruct (Z.ltb_spec a 128); lia.
    + apply IH; [cbn in Hlen; lia | inversion Hq; assumption].
  - revert alpha_data Hlen. clear Hq.
    induction quant_data as [|q qd IH]; intros [|a alpha] Hlen; try discriminate;
      cbn [combine map fst snd]; constructor.
    + destruct (a <? 128); [left | right]; reflexivity.
    + apply IH. cbn in Hlen. lia.
Qed.

Lemma X18_sprite_pixels_keep_index_zero_for_transparency_witness :
  exists pixels,
    Sprite.convert_sprite [255; 0; 127; 128] [0; 1; 2; 2] [10; 20; 30; 40; 50; 60; 70; 80; 90] 3
    = Sprite.Run (Done (Sprite.new_palette [10; 20; 30; 40; 50; 60; 70; 80; 90] 3, pixels))
    /\ Forall2 (fun a p => (a < 128 <-> p = 0) /\ 0 <= p <= 3) [255; 0; 127; 128] pixels
    /\ Forall2 (fun q p => p = 0 \/ p = q + 1) [0; 1; 2; 2] pixels.
Proof.
  apply (X18_sprite_pixels_keep_index_zero_for_transparency
           [255; 0; 127; 128] [0; 1; 2; 2] [10; 20; 30; 40; 50; 60; 70; 80; 90] 3).
  - lia.
  - reflexivity.
  - repeat constructor; lia.
Defined.

(** ** batch_convert: the counters of process_assets *)

Section DriverFacts.

Import BatchConvert.

Variable isfile : string -> bool.
Variable join : string -> string -> string.
Variable render_sprite : string -> string -> Z -> Z -> option string.
Variable render_background : string -> string -> Z -> Z -> Z -> option string.

Let step := process_asset isfile join render_sprite render_background.
Let loop := process_list isfile join render_sprite render_background.

(** Every asset that is got through counts once, as converted or as
    skipped. *)
Lemma process_asset_counts pf sr or a c s c' s' :
  step pf sr or a (c, s) = Ret (c', s') ->
  (c' = c + 1 /\ s' = s) \/ (c' = c /\ s' = s + 1).
Proof.
  unfold step, process_asset, convert_sprite, convert_background.
  destruct (filtered_out pf a); [intros E; injection E as <- <-; right; split; reflexivity|].
  destruct (a_source a) as [src|]; cbn [item then_]; [|discriminate].
  destruct (a_output a) as [out|]; cbn [item then_]; [|discriminate].
  destruct (isfile (join sr src)); cbn [negb];
    [|intros E; injection E as <- <-; right; split; reflexivity].
  destruct (a_type a) as [ty|]; cbn [item then_]; [|discriminate].
  destruct (String.eqb ty "sprite").
  - destruct (a_size a) as [size|]; cbn [item then_]; [|discriminate].
    destruct ((get (a_colors a) 15 <? 1) || (15 <? get (a_colors a) 15));
      cbn [then_]; [discriminate|].
    destruct (render_sprite _ _ _ _); cbn [then_]; [discriminate|].
    intros E; injection E as <- <-; left; split; reflexivity.
  - destruct (String.eqb ty "background").
    + destruct (a_width a) as [w|]; cbn [item then_]; [|discriminate].
      destruct (a_height a) as [h|]; cbn [item then_]; [|discriminate].
      destruct ((get (a_colors a) 16 <? 1) || (16 <? get (a_colors a) 16));
        cbn [then_]; [discriminate|].
      destruct (render_background _ _ _ _ _); cbn [then_]; [discriminate|].
      intros E; injection E as <- <-; left; split; reflexivity.
    + destruct (a_id a) as [i|]; cbn [item then_]; [|discriminate].
      intros E; injection E as <- <-; right; split; reflexivity.
Qed.

Lemma process_list_counts pf sr or assets :
  forall c s c' s',
    loop pf sr or assets (c, s) = Ret (c', s') ->
    c' + s' = c + s + Z.of_nat (length assets) /\ c <= c' /\ s <= s'.
Proof.
  induction assets as [|a rest IH]; intros c s c' s'; cbn [loop process_list].
  - intros E. injection E as <- <-. cbn [length]. lia.
  - unfold loop. cbn [process_list]. fold step. fold loop.
    destruct (step pf sr or a (c, s)) as [[c1 s1]|h] eqn:Ea; cbn [then_]; [|discriminate].
    intros E. apply IH in E. apply process_asset_counts in Ea.
    cbn [length]. lia.
Qed.

(** Without a phase filter the skipped counter only shifts the result. *)
Lemma process_asset_shift sr or a c s k :
  step None sr or a (c, s + k) = add_skipped k (step None sr or a (c, s)).
Proof.
  unfold step, process_asset, convert_sprite, convert_background. cbn [filtered_out].
  destruct (a_source a) as [src|]; cbn [item then_ add_skipped]; [|reflexivity].
  destruct (a_output a) as [out|]; cbn [item then_ add_skipped]; [|reflexivity].
  destruct (isfile (join sr src)); cbn [negb add_skipped];
    [|f_equal; f_equal; lia].
  destruct (a_type a) as [ty|]; cbn [item then_ add_skipped]; [|reflexivity].
  destruct (String.eqb ty "sprite").
  - destruct (a_size a) as [size|]; cbn [item then_ add_skipped]; [|reflexivity].
    destruct ((get (a_colors a) 15 <? 1) || (15 <? get (a_colors a) 15));
      cbn [then_ add_skipped]; [reflexivity|].
    destruct (render_sprite _ _ _ _); cbn [then_ add_skipped]; reflexivity.
  - destruct (String.eqb ty "background").
    + destruct (a_width a) as [w|]; cbn [item then_ add_skipped]; [|reflexivity].
      destruct (a_height a) as [h|]; cbn [item then_ add_skipped]; [|reflexivity].
      destruct ((get (a_colors a) 16 <? 1) || (16 <? get (a_colors a) 16));
        cbn [then_ add_skipped]; [reflexivity|].
      destruct (render_background _ _ _ _ _); cbn [then_ add_skipped]; reflexivity.
    + destruct (a_id a) as [i|]; cbn [item then_ add_skipped]; [|reflexivity].
      f_equal; f_equal; lia.
Qed.

Lemma add_skipped_add k1 k2 r :
  add_skipped k1 (add_skipped k2 r) = add_skipped (k2 + k1) r.
Proof.
  destruct r as [[c s]|h]; cbn [add_skipped]; [|reflexivity].
  f_equal; f_equal; lia.
Qed.

Lemma process_list_shift sr or assets :
  forall c s k,
    loop None sr or assets (c, s + k) = add_skipped k (loop None sr or assets (c, s)).
Proof.
  induction assets as [|a rest IH]; intros c s k; unfold loop; cbn [process_list].
  - reflexivity.
  - fold step. fold loop. rewrite process_asset_shift.
    destruct (step None sr or a (c, s)) as [[c1 s1]|h]; cbn [then_ add_skipped];
      [apply IH | reflexivity].
Qed.

Lemma process_asset_in_phase p sr or a counters :
  in_phase p a = true ->
  step (Some p) sr or a counters = step None sr or a counters.
Proof.
  intros H. unfold step, process_asset, filtered_out.
  unfold in_phase in H. rewrite H. reflexivity.
Qed.

Lemma process_list_phase p sr or assets :
  forall c s,
    loop (Some p) sr or assets (c, s)
    = add_skipped (Z.of_nat (length assets) - Z.of_nat (length (filter (in_phase p) assets)))
                  (loop None sr or (filter (in_phase p) assets) (c, s)).
Proof.
  induction assets as [|a rest IH]; intros c s; unfold loop; cbn [process_list filter].
  - cbn. f_equal; f_equal; lia.
  - fold step. fold loop. destruct (in_phase p a) eqn:Ep.
    + rewrite process_asset_in_phase by exact Ep.
      unfold loop at 2. cbn [process_list]. fold step. fold loop.
      destruct (step None sr or a (c, s)) as [[c1 s1]|h]; cbn [then_ add_skipped];
        [|reflexivity].
      rewrite IH. f_equal. cbn [length]. lia.
    + assert (F : step (Some p) sr or a (c, s) = Ret (c, s + 1)).
      { unfold step, process_asset, filtered_out. unfold in_phase in Ep.
        rewrite Ep. reflexivity. }
      rewrite F. cbn [then_]. rewrite IH, process_list_shift, add_skipped_add.
      f_equal. cbn [length]. lia.
Qed.

End DriverFacts.

(** X19: process_assets accounts for every asset.  When it returns, the
    converted and skipped counters are non-negative and add up to the
    number of assets in the manifest, with or without a phase filter. *)
Theorem X19_process_assets_counts_every_asset
        (isfile : string -> bool) (join : string -> string -> string)
        (render_sprite : string -> string -> Z -> Z -> option string)
        (render_background : string -> string -> Z -> Z -> Z -> option string)
        (source_root output_root : string)
        (categories : list (string * list BatchConvert.asset))
        (phase_filter : option Z) (converted skipped : Z) :
  BatchConvert.process_assets isfile join render_sprite render_background
    source_root output_root categories phase_filter
  = BatchConvert.Ret (converted, skipped) ->
  converted + skipped = BatchConvert.count categories
  /\ 0 <= converted /\ 0 <= skipped.
Proof.
  unfold BatchConvert.process_assets, BatchConvert.count. intros E.
  apply process_list_counts in E. lia.
Qed.

Lemma X19_process_assets_counts_every_asset_witness :
  2 + 1 = BatchConvert.count BatchConvert.demo_manifest /\ 0 <= 2 /\ 0 <= 1.
Proof.
  apply (X19_process_assets_counts_every_asset
           (fun _ => true) String.append (fun _ _ _ _ => None) (fun _ _ _ _ _ => None)
           "assets/"%string "build/"%string BatchConvert.demo_manifest None 2 1).
  reflexivity.
Defined.

Lemma filter_concat_map (f : BatchConvert.asset -> bool)
      (categories : list (string * list BatchConvert.asset)) :
  concat (map snd (map (fun cat => (fst cat, filter f (snd cat))) categories))
  = filter f (concat (map snd categories)).
Proof.
  induction categories as [|cat rest IH]; [reflexivity|].
  cbn [map concat snd]. rewrite filter_app, IH. reflexivity.
Qed.

(** X20: what --phase does.  Running process_assets with a phase filter p
    gives the result of running it without filter on the manifest reduced
    to the assets of phase p (an asset without "phase" counting as phase
    999), with the left-out assets added to the skipped counter; if one
    run stops early, so does the other, in the same way.  The assets of
    other phases are thus never looked up on disk nor converted. *)
Theorem X20_process_assets_phase_filter
        (isfile : string -> bool) (join : string -> string -> string)
        (render_sprite : string -> string -> Z -> Z -> option string)
        (render_background : string -> string -> Z -> Z -> Z -> option string)
        (source_root output_root : string)
        (categories : list (string * list BatchConvert.asset)) (p : Z) :
  BatchConvert.process_assets isfile join render_sprite render_background
    source_root output_root categories (Some p)
  = BatchConvert.add_skipped
      (BatchConvert.count categories
       - BatchConvert.count (BatchConvert.only_phase p categories))
      (BatchConvert.process_assets isfile join render_sprite render_background
         source_root output_root (BatchConvert.only_phase p categories) None).
Proof.
  unfold BatchConvert.process_assets, BatchConvert.count, BatchConvert.only_phase.
  rewrite filter_concat_map. apply process_list_phase.
Qed.

(** ** The onset sample of downsample *)

Lemma round64_Finite_lt n d x : round64 n d = Finite x -> Z.abs x < top.
Proof.
  unfold round64. destruct (Z.ltb_spec (Z.abs (round_ne n d)) top); [|discriminate].
  intros E. injection E as <-. assumption.
Qed.

Lemma true_div_pos_round64 a b x :
  0 < b -> true_div a b = Done (Finite x) -> round64 (a * one) b = Finite x.
Proof.
  intros Hb. unfold true_div.
  destruct (Z.eqb_spec b 0); [lia|].
  destruct (Z.ltb_spec b 0); [lia|].
  destruct (round64 (a * one) b) as [y| |]; try discriminate.
  intros Ey. injection Ey as <-. reflexivity.
Qed.

(** The walk ends whenever the ratio is a float and is not lost against
    the cursor: [len(samples) * dst_rate <= src_rate * 2^52] keeps [ratio]
    at or above the float spacing below [len(samples)].  A ratio of
    [len(samples)] or more leaves the buffer with the first step; a smaller
    one walks through it.  2^63 bounds the length of any Python list. *)
Lemma downsample_terminates s0 rest src_rate dst_rate ratio :
  0 < src_rate -> 0 < dst_rate ->
  true_div src_rate dst_rate = Done ratio ->
  len (s0 :: rest) < 2 ^ 63 ->
  len (s0 :: rest) * dst_rate <= src_rate * 2 ^ 52 ->
  exists fuel out, downsample fuel (s0 :: rest) src_rate dst_rate = Done out.
Proof.
  intros Hs Hd Er Hbuf Hlen. unfold downsample.
  pose proof one_pos as U. pose proof (len_nonneg rest) as L0.
  assert (L : 1 <= len (s0 :: rest)) by (rewrite len_cons; lia).
  destruct (true_div_finite _ _ _ Er) as (r & ->).
  pose proof (true_div_pos_inv _ _ _ Hd Er) as Hr.
  pose proof (round64_Finite_lt _ _ _ (true_div_pos_round64 _ _ _ Hd Er)) as Ht.
  assert (Rr : representable r)
    by (rewrite Hr; apply round_ne_representable; exact Hd).
  assert (R0 : 0 <= r).
  { rewrite Hr. apply round_ne_lower; [exact Hd | apply representable_0 | nia]. }
  rewrite Er. cbn [bind].
  destruct (Z.lt_ge_cases r (len (s0 :: rest) * one)) as [Hsmall|Hbig].
  - assert (P63 : 2 ^ 63 <= 2 ^ 970) by (apply Z.pow_le_mono_r; lia).
    assert (P970 : 2 ^ 970 <= 2 ^ 1022) by (apply Z.pow_le_mono_r; lia).
    apply (downsample_loop_terminates (s0 :: rest) r)
      with (n := S (Z.to_nat (len (s0 :: rest) * one))).
    + nia.
    + intros x Hx. rewrite Hr.
      pose proof (drop_nonneg x 1) as K.
      assert (Pk : 0 < 2 ^ drop x 1) by (apply Z.pow_pos_nonneg; lia).
      apply round_ne_lower; [exact Hd | |].
      * rewrite <- (Z.mul_1_l (2 ^ _)). apply representable_mul_pow2; cbn; lia.
      * assert (O52 : 2 ^ 52 <= one) by (unfold one; apply Z.pow_le_mono_r; lia).
        destruct (Z.eq_dec (drop x 1) 0) as [E0|E0].
        { rewrite E0. cbn [Z.pow Z.pow_pos Pos.iter]. nia. }
        pose proof (drop_pos_large x 1 ltac:(lia)) as B.
        rewrite Z.div_1_r, Z.pow_add_r in B by lia.
        assert (A1 : 2 ^ 52 * 2 ^ drop x 1 * dst_rate <= x * dst_rate)
          by (apply Z.mul_le_mono_nonneg_r; lia).
        assert (A2 : x * dst_rate <= len (s0 :: rest) * one * dst_rate)
          by (apply Z.mul_le_mono_nonneg_r; lia).
        assert (A3 : one * (len (s0 :: rest) * dst_rate) <= one * (src_rate * 2 ^ 52))
          by (apply Z.mul_le_mono_nonneg_l; lia).
        assert (A4 : 2 ^ 52 * (2 ^ drop x 1 * dst_rate) <= 2 ^ 52 * (src_rate * one)) by lia.
        apply Z.mul_le_mono_pos_l in A4; lia.
    + lia.
    + lia.
    + apply representable_0.
    + lia.
  - exists 2%nat, [s0]. cbn [downsample_loop].
    change (to_int (Finite 0)) with (Done (Z.quot 0 one)).
    rewrite Z.quot_0_l by lia. cbn [bind].
    destruct (Z.ltb_spec 0 (len (s0 :: rest))); [|lia].
    rewrite py_index_head. cbn [bind app].
    assert (A : add (Finite 0) (Finite r) = Finite r).
    { cbn [add]. replace (0 + r) with (r * 1) by lia.
      apply round64_exact; [lia | exact Rr | exact Ht]. }
    rewrite A. cbn [to_int bind].
    destruct (Z.ltb_spec (Z.quot r one) (len (s0 :: rest))) as [Hq|Hq];
      [exfalso | reflexivity].
    rewrite Z.quot_div_nonneg in Hq by lia.
    assert (len (s0 :: rest) <= r / one) by (apply Z.div_le_lower_bound; lia).
    lia.
Qed.

(** The largest float below 1.0 is [2^1074 - 2^1021] units; a quarter of
    the spacing there is [2^1019] units, and adding it rounds back. *)
Lemma round_below_one :
  round_ne (2 ^ 1074 - 2 ^ 1021 + 2 ^ 1019) 1 = 2 ^ 1074 - 2 ^ 1021.
Proof. vm_compute. reflexivity. Qed.

(** A step of at most 2^-55 never takes a cursor below 1.0 up to 1.0. *)
Lemma cursor_below_one c r :
  0 <= c <= 2 ^ 1074 - 2 ^ 1021 -> 0 <= r <= 2 ^ 1019 ->
  exists c', add (Finite c) (Finite r) = Finite c'
             /\ 0 <= c' <= 2 ^ 1074 - 2 ^ 1021.
Proof.
  intros Hc Hr. cbn [add]. unfold round64.
  assert (P : 0 < 2 ^ 1021) by (apply Z.pow_pos_nonneg; lia).
  assert (Lo : 0 <= round_ne (c + r) 1)
    by (apply round_ne_lower; [lia | apply representable_0 | lia]).
  assert (Hi : round_ne (c + r) 1 <= 2 ^ 1074 - 2 ^ 1021).
  { eapply Z.le_trans;
      [apply (round_ne_mono _ (2 ^ 1074 - 2 ^ 1021 + 2 ^ 1019)); lia |].
    rewrite round_below_one. lia. }
  pose proof (pow2_lt_top 1074 ltac:(lia)) as T.
  destruct (Z.ltb_spec (Z.abs (round_ne (c + r) 1)) top); [|lia].
  eexists. split; [reflexivity|]. lia.
Qed.

Lemma downsample_loop_below_one s0 rest r fuel :
  0 <= r <= 2 ^ 1019 ->
  forall c out,
    0 <= c <= 2 ^ 1074 - 2 ^ 1021 ->
    downsample_loop fuel (s0 :: rest) (Finite r) (Finite c) out = OutOfFuel.
Proof.
  intros Hr. induction fuel as [|fuel IH]; intros c out Hc; [reflexivity|].
  cbn [downsample_loop to_int bind].
  assert (P : 0 < 2 ^ 1021) by (apply Z.pow_pos_nonneg; lia).
  rewrite Z.quot_small by (unfold one; lia).
  pose proof (len_nonneg rest).
  destruct (Z.ltb_spec 0 (len (s0 :: rest))); [|rewrite len_cons in *; lia].
  rewrite py_index_head. cbn [bind].
  destruct (cursor_below_one c r Hc Hr) as (c' & -> & Hc').
  apply IH. exact Hc'.
Qed.

(** With [dst_rate >= 2^55 * src_rate] the ratio is at most 2^-55 (0.0
    when it underflows): the cursor stays below 1.0 and the loop goes on
    reading [samples[0]]. *)
Lemma downsample_never_returns s0 rest src_rate dst_rate :
  0 < src_rate -> src_rate * 2 ^ 55 <= dst_rate ->
  forall fuel, downsample fuel (s0 :: rest) src_rate dst_rate = OutOfFuel.
Proof.
  intros Hs Hle fuel. unfold downsample.
  assert (P55 : 0 < 2 ^ 55) by (apply Z.pow_pos_nonneg; lia).
  assert (P1019 : 0 < 2 ^ 1019) by (apply Z.pow_pos_nonneg; lia).
  assert (Hd : 0 < dst_rate) by nia.
  assert (E : one = 2 ^ 55 * 2 ^ 1019)
    by (unfold one; rewrite <- Z.pow_add_r by lia; reflexivity).
  destruct (true_div_between src_rate dst_rate 0 (2 ^ 1019)) as (r & Er & Br).
  - exact Hd.
  - apply representable_0.
  - rewrite <- (Z.mul_1_l (2 ^ 1019)). apply representable_mul_pow2; cbn; lia.
  - rewrite E. split; [nia|].
    assert (src_rate * 2 ^ 55 * 2 ^ 1019 <= dst_rate * 2 ^ 1019)
      by (apply Z.mul_le_mono_nonneg_r; lia).
    lia.
  - pose proof (pow2_lt_top 0 ltac:(lia)). lia.
  - apply pow2_lt_top. lia.
  - rewrite Er. cbn [bind]. apply downsample_loop_below_one; [exact Br|].
    assert (2 ^ 1021 < 2 ^ 1074) by (apply Z.pow_lt_mono_r; lia). lia.
Qed.

(** C10 (amended): for a non-empty buffer and positive rates, whatever
    downsample returns starts with the first input sample (the cursor
    starts at 0.0).  It does return, with a non-empty output, whenever
    src_rate / dst_rate does not raise OverflowError, len(samples) < 2^63
    and len(samples) * dst_rate <= src_rate * 2^52.  It never returns
    whenever dst_rate >= 2^55 * src_rate: the while loop does not end. *)
Theorem C10_downsample_keeps_first_sample
        (x : Z) (rest : list Z) (src_rate dst_rate : Z) :
  0 < src_rate -> 0 < dst_rate ->
  (forall fuel out,
      downsample fuel (x :: rest) src_rate dst_rate = Done out ->
      exists tl, out = x :: tl)
  /\ (forall ratio,
         true_div src_rate dst_rate = Done ratio ->
         len (x :: rest) < 2 ^ 63 ->
         len (x :: rest) * dst_rate <= src_rate * 2 ^ 52 ->
         exists fuel tl,
           downsample fuel (x :: rest) src_rate dst_rate = Done (x :: tl))
  /\ (src_rate * 2 ^ 55 <= dst_rate ->
      forall fuel, downsample fuel (x :: rest) src_rate dst_rate = OutOfFuel).
Proof.
  intros Hs Hd. split; [|split].
  - intros fuel out E. eapply downsample_keeps_onset. exact E.
  - intros ratio Er Hbuf Hlen.
    destruct (downsample_terminates x rest src_rate dst_rate ratio Hs Hd Er Hbuf Hlen)
      as (fuel & out & E).
    destruct (downsample_keeps_onset _ _ _ _ _ _ E) as (tl & ->).
    exists fuel, tl. exact E.
  - intros Hle fuel. apply downsample_never_returns; assumption.
Qed.

Lemma C10_downsample_keeps_first_sample_witness :
  (exists fuel tl, downsample fuel [7; 8; 9; 10] 44100 16000 = Done (7 :: tl))
  /\ (forall fuel, downsample fuel [5] 1 (2 ^ 1100) = OutOfFuel).
Proof.
  split.
  - eapply (proj1 (proj2 (C10_downsample_keeps_first_sample
                            7 [8; 9; 10] 44100 16000 ltac:(lia) ltac:(lia)))).
    + vm_compute. reflexivity.
    + vm_compute. reflexivity.
    + vm_compute. discriminate.
  - apply (proj2 (proj2 (C10_downsample_keeps_first_sample
                           5 [] 1 (2 ^ 1100) ltac:(lia)
                           (Z.pow_pos_nonneg 2 1100 ltac:(lia) ltac:(lia))))).
    rewrite Z.mul_1_l. apply Z.pow_le_mono_r; lia.
Defined.
